(** * Math text rendering of bokehjs: graphics boxes and the MathText pipeline

    A shallow embedding of [bokehjs/src/lib/core/graphics.ts] (the box
    hierarchy [TextBox], [ImageTextBox], [BaseExpo], [GraphicsContainer]) and
    of [bokehjs/src/lib/models/text/math_text.ts] (the views that turn math
    markup into images), with the properties of both that are stated and
    proved at the end.

    Conventions of the embedding.
    - A JavaScript string is the list of its UTF-16 code units, each a [Z].
    - A JavaScript number is an exact rational [Q]; [NaN], the infinities and
      rounding are outside the model (a division by zero gives zero here),
      and equality of numbers is [Qeq] ([==]).
    - A field a constructor leaves unassigned holds a placeholder (the empty
      string, zero) until the setter that assigns it has run.
    - An object held by reference in an array is named by its index.
    - A method that throws returns [None]. *)

From Stdlib Require Import ZArith QArith Qminmax Qabs Lqa Lia List String Ascii Bool.
From stdpp Require Import base tactics option list gmap.

Abbreviation jsstring := (list Z) (only parsing).

(** ** JavaScript strings *)

Module JS.

(** A string literal of ASCII characters as code units. *)
Definition lit (s : string) : jsstring :=
  map (fun a => Z.of_N (N_of_ascii a)) (list_ascii_of_string s).

Definition unit_eqb (a b : Z) : bool := Z.eqb a b.

Fixpoint eqb (s t : jsstring) : bool :=
  match s, t with
  | [], [] => true
  | a :: s', b :: t' => unit_eqb a b && eqb s' t'
  | _, _ => false
  end.

(** [s <= t] on strings: the comparison by code units of the language. *)
Fixpoint leb (s t : jsstring) : bool :=
  match s, t with
  | [], _ => true
  | _ :: _, [] => false
  | a :: s', b :: t' =>
      if Z.ltb a b then true
      else if Z.ltb b a then false
      else leb s' t'
  end.

Fixpoint starts_with (s needle : jsstring) {struct needle} : bool :=
  match needle, s with
  | [], _ => true
  | _ :: _, [] => false
  | b :: needle', a :: s' => unit_eqb a b && starts_with s' needle'
  end.

(** The first offset of [s] at which [needle] occurs. *)
Fixpoint find (s needle : jsstring) : option nat :=
  if starts_with s needle then Some 0%nat
  else match s with
       | [] => None
       | _ :: s' => S <$> find s' needle
       end.

(** [s.indexOf(needle)]: the offset, or [-1]. *)
Definition indexOf (s needle : jsstring) : Z :=
  match find s needle with Some i => Z.of_nat i | None => (-1)%Z end.

(** [s.includes(needle)]. *)
Definition includes (s needle : jsstring) : bool :=
  negb (Z.eqb (indexOf s needle) (-1)).

(** The clamping of a relative index of [slice]. *)
Definition slice_index (len : nat) (i : Z) : nat :=
  if Z.ltb i 0 then Z.to_nat (Z.max (Z.of_nat len + i) 0)
  else Nat.min (Z.to_nat i) len.

(** [s.slice(from, to)]. *)
Definition slice (s : jsstring) (from to : Z) : jsstring :=
  let a := slice_index (length s) from in
  let b := slice_index (length s) to in
  take (b - a) (drop a s).

(** [s.slice(from)]. *)
Definition slice_from (s : jsstring) (from : Z) : jsstring :=
  drop (slice_index (length s) from) s.

(** [s.split(sep)] for a separator of one code unit: the pieces between the
    occurrences of [sep]; never empty. *)
Fixpoint split (s : jsstring) (sep : Z) : list jsstring :=
  match s with
  | [] => [[]]
  | a :: s' =>
      if unit_eqb a sep then [] :: split s' sep
      else match split s' sep with
           | [] => [[a]]
           | piece :: pieces => (a :: piece) :: pieces
           end
  end.

(** White space and line terminators, the code units [trim] removes. *)
Definition is_white_space (c : Z) : bool :=
  existsb (Z.eqb c)
    [9; 10; 11; 12; 13; 32; 160; 5760; 8232; 8233; 8239; 8287; 12288; 65279]%Z
  || (Z.leb 8192 c && Z.leb c 8202).

Fixpoint trim_start (s : jsstring) : jsstring :=
  match s with
  | a :: s' => if is_white_space a then trim_start s' else s
  | [] => []
  end.

Definition trim_end (s : jsstring) : jsstring := rev (trim_start (rev s)).

(** [s.trim()]. *)
Definition trim (s : jsstring) : jsstring := trim_end (trim_start s).

Definition is_high_surrogate (c : Z) : bool := Z.leb 55296 c && Z.leb c 56319.
Definition is_low_surrogate (c : Z) : bool := Z.leb 56320 c && Z.leb c 57343.

(** The string iterator ([for (const c of s)], [new Set(s)]): one string per
    code point, a surrogate pair giving a string of two code units. *)
Fixpoint code_points (s : jsstring) : list jsstring :=
  match s with
  | [] => []
  | a :: s' =>
      match s' with
      | b :: s'' =>
          if is_high_surrogate a && is_low_surrogate b
          then [a; b] :: code_points s''
          else [a] :: code_points s'
      | [] => [[a]]
      end
  end.

Definition mem (c : jsstring) (seen : list jsstring) : bool :=
  existsb (eqb c) seen.

(** [new Set(values)], in insertion order. *)
Definition Set_of (values : list jsstring) : list jsstring :=
  fold_left (fun seen c => if mem c seen then seen else seen ++ [c]) values [].

End JS.

(** [insert_text_on_position] of core/util/string.

    Modelled from the spec: the helper is not among the sources; it puts
    [text] into [destination] at offset [position], keeping what is before
    and after. *)
Definition insert_text_on_position
    (destination : jsstring) (position : Z) (text : jsstring) : jsstring :=
  JS.slice destination 0 position ++ text ++ JS.slice_from destination position.

(** ** Regular expressions

    The fragment of the language's regular expressions that the views use,
    with the backtracking order of the language: a pattern is matched against
    a string with a continuation for what follows it, and the first success in
    that order is the match. *)

Module Regex.

Inductive re : Type :=
| Chars (s : jsstring)            (* a literal sequence of code units *)
| Class (p : Z -> bool)           (* one code unit of a class *)
| Seq (r1 r2 : re)
| Opt (r : re)                    (* [(r)?], greedy; [r] matches no empty string *)
| LazyStar (p : Z -> bool).       (* [c*?] for a class [c] of one code unit *)

(** [c*?]: as few code units as the continuation allows. *)
Fixpoint lazy_star (p : Z -> bool) (s : jsstring)
    (k : jsstring -> option jsstring) : option jsstring :=
  match k s with
  | Some rest => Some rest
  | None =>
      match s with
      | a :: s' => if p a then lazy_star p s' k else None
      | [] => None
      end
  end.

(** [m r s k]: match [r] at the start of [s], then [k] on what is left; the
    result is what is left of [s] after the whole match. *)
Fixpoint m (r : re) (s : jsstring)
    (k : jsstring -> option jsstring) : option jsstring :=
  match r with
  | Chars l => if JS.starts_with s l then k (drop (length l) s) else None
  | Class p =>
      match s with
      | a :: s' => if p a then k s' else None
      | [] => None
      end
  | Seq r1 r2 => m r1 s (fun s' => m r2 s' k)
  | Opt r' =>
      match m r' s k with
      | Some rest => Some rest
      | None => k s
      end
  | LazyStar p => lazy_star p s k
  end.

(** The text matched at the start of [s], if [r] matches there. *)
Definition match_here (r : re) (s : jsstring) : option jsstring :=
  rest ← m r s Some; Some (take (length s - length rest) s).

(** The leftmost match of [r] in [s]: its offset and its text. *)
Fixpoint exec (r : re) (s : jsstring) : option (nat * jsstring) :=
  match match_here r s with
  | Some matched => Some (0%nat, matched)
  | None =>
      match s with
      | [] => None
      | _ :: s' => prod_map S id <$> exec r s'
      end
  end.

(** [s.match(r)[0]] for [r] without the global flag; [None] is [null]. *)
Definition String_match (s : jsstring) (r : re) : option jsstring :=
  snd <$> exec r s.

Definition any : Z -> bool := fun _ => true.
Definition other_than (c : Z) : Z -> bool := fun a => negb (Z.eqb a c).

End Regex.

(** [/<math(.*?[^?])?>/s] *)
Definition math_open_re : Regex.re :=
  Regex.Seq (Regex.Chars (JS.lit "<math"))
    (Regex.Seq
       (Regex.Opt (Regex.Seq (Regex.LazyStar Regex.any)
                             (Regex.Class (Regex.other_than 63))))
       (Regex.Chars (JS.lit ">"))).

(** [/<\/[^>]*?math.*?>/s] *)
Definition math_close_re : Regex.re :=
  Regex.Seq (Regex.Chars (JS.lit "</"))
    (Regex.Seq (Regex.LazyStar (Regex.other_than 62))
       (Regex.Seq (Regex.Chars (JS.lit "math"))
          (Regex.Seq (Regex.LazyStar Regex.any) (Regex.Chars (JS.lit ">"))))).

(** ** Graphics boxes (core/graphics.ts) *)

Module TextHeightMetric.
Inductive t : Type := x | cap | ascent | x_descent | cap_descent | ascent_descent.
End TextHeightMetric.

Inductive HAlign : Type := Left | Center | Right.
Inductive Align : Type := AlignAuto | AlignTo (a : HAlign) | AlignJustify.
Inductive XAnchor : Type := XNumber (f : Q) | XNamed (a : HAlign).
Inductive VAnchor : Type := Top | VCenter | Baseline | Bottom.
Inductive YAnchor : Type := YNumber (f : Q) | YNamed (a : VAnchor).

Record Position : Type := {
  sx : Q;
  sy : Q;
  x_anchor : option XAnchor;
  y_anchor : option YAnchor
}.

Record Size : Type := { width : Q; height : Q }.

Record FontMetrics : Type := {
  fm_height : Q;
  ascent : Q;
  descent : Q;
  cap_height : Q;
  x_height : Q
}.

Record ImageProperties : Type := { ip_width : Q; ip_height : Q; v_align : Q }.

(** A decoded image, named by a handle. *)
Abbreviation CanvasImage := nat (only parsing).

(** The values of a text visual that the boxes read. *)
Record TextValues : Type := {
  tv_color : jsstring;
  tv_alpha : Q;
  tv_font_style : jsstring;
  tv_font_size : jsstring;
  tv_font : jsstring;
  tv_line_height : Q;
  tv_align : HAlign;
  tv_baseline : jsstring
}.

(** The services that the boxes and the views call and that are not part of
    the sources modelled here: font measurement, colour and length parsing of
    core/util, the printing of a number in a template string, and the
    trigonometric functions of the language. [parse_css_length] is called
    with what a map has under a key, a string or [undefined]; it gives a
    length with its unit or [null], or it throws. *)
Class Services : Type := {
  font_metrics : jsstring -> FontMetrics;
  text_width : jsstring -> jsstring -> Q;
  parse_css_font_size : jsstring -> option (Q * jsstring);
  parse_css_length : option jsstring -> option (option (Q * jsstring));
  color2css : jsstring -> Q -> jsstring;
  color2hexrgb : jsstring -> jsstring;
  color2rgba : jsstring -> Z * Z * Z;
  number_to_string : Q -> jsstring;
  Math_cos : Q -> Q;
  Math_sin : Q -> Q
}.

(** The fields of [GraphicsBox]. [box_width] and [box_height] are the
    [width] and [height] overrides, whose unit is always a percentage. *)
Record BoxFields : Type := {
  _position : Position;
  _angle : option Q;
  box_width : option Q;
  box_height : option Q;
  font_size_scale : Q;
  text_height_metric : option TextHeightMetric.t;
  align : Align;
  _base_font_size : Q;
  _x_anchor : HAlign;
  _y_anchor : VAnchor
}.

(** The fields [TextBox] adds. *)
Record TextFields : Type := {
  text : jsstring;
  color : jsstring;
  font : jsstring;
  line_height : Q;
  _visual_align : HAlign
}.

(** The fields [ImageTextBox] adds; its [load_image] is the view's. *)
Record ImageFields : Type := {
  image : option CanvasImage;
  image_properties : ImageProperties
}.

#[warnings="-register-all"]
Inductive GraphicsBox : Type :=
| TextBox (g : BoxFields) (t : TextFields)
| ImageTextBox (g : BoxFields) (t : TextFields) (i : ImageFields)
| BaseExpo (g : BoxFields) (base expo : GraphicsBox)
| GraphicsContainer (g : BoxFields) (items : list GraphicsBox).

(** The field initialisers of [GraphicsBox]. *)
Definition new_GraphicsBox : BoxFields :=
  {| _position := {| sx := 0; sy := 0; x_anchor := None; y_anchor := None |};
     _angle := None;
     box_width := None;
     box_height := None;
     font_size_scale := 1;
     text_height_metric := None;
     align := AlignTo Left;
     _base_font_size := 13;
     _x_anchor := Left;
     _y_anchor := VCenter |}.

Definition new_TextFields (text : jsstring) : TextFields :=
  {| text := text; color := []; font := []; line_height := 0;
     _visual_align := Left |}.

(** [new TextBox({text})] *)
Definition new_TextBox (text : jsstring) : GraphicsBox :=
  TextBox new_GraphicsBox (new_TextFields text).

(** [new ImageTextBox({text, load_image})] *)
Definition new_ImageTextBox (text : jsstring) : GraphicsBox :=
  ImageTextBox new_GraphicsBox (new_TextFields text)
    {| image := None;
       image_properties := {| ip_width := 0; ip_height := 0; v_align := 0 |} |}.

(** [new GraphicsContainer(items)] *)
Definition new_GraphicsContainer (items : list GraphicsBox) : GraphicsBox :=
  GraphicsContainer new_GraphicsBox items.

Definition fields (b : GraphicsBox) : BoxFields :=
  match b with
  | TextBox g _ | ImageTextBox g _ _ | BaseExpo g _ _ | GraphicsContainer g _ => g
  end.

Definition with_fields (f : BoxFields -> BoxFields) (b : GraphicsBox) : GraphicsBox :=
  match b with
  | TextBox g t => TextBox (f g) t
  | ImageTextBox g t i => ImageTextBox (f g) t i
  | BaseExpo g base expo => BaseExpo (f g) base expo
  | GraphicsContainer g items => GraphicsContainer (f g) items
  end.

Definition put_position (p : Position) (g : BoxFields) : BoxFields :=
  {| _position := p; _angle := _angle g; box_width := box_width g;
     box_height := box_height g; font_size_scale := font_size_scale g;
     text_height_metric := text_height_metric g; align := align g;
     _base_font_size := _base_font_size g; _x_anchor := _x_anchor g;
     _y_anchor := _y_anchor g |}.

Definition put_font_size_scale (s : Q) (g : BoxFields) : BoxFields :=
  {| _position := _position g; _angle := _angle g; box_width := box_width g;
     box_height := box_height g; font_size_scale := s;
     text_height_metric := text_height_metric g; align := align g;
     _base_font_size := _base_font_size g; _x_anchor := _x_anchor g;
     _y_anchor := _y_anchor g |}.

Definition put_text_height_metric (m : TextHeightMetric.t) (g : BoxFields) : BoxFields :=
  {| _position := _position g; _angle := _angle g; box_width := box_width g;
     box_height := box_height g; font_size_scale := font_size_scale g;
     text_height_metric := Some m; align := align g;
     _base_font_size := _base_font_size g; _x_anchor := _x_anchor g;
     _y_anchor := _y_anchor g |}.

Definition put_anchors (xa : HAlign) (ya : VAnchor) (g : BoxFields) : BoxFields :=
  {| _position := _position g; _angle := _angle g; box_width := box_width g;
     box_height := box_height g; font_size_scale := font_size_scale g;
     text_height_metric := text_height_metric g; align := align g;
     _base_font_size := _base_font_size g; _x_anchor := xa; _y_anchor := ya |}.

(** [get position()] and [get angle()]. *)
Definition position (b : GraphicsBox) : Position := _position (fields b).
Definition angle (b : GraphicsBox) : option Q := _angle (fields b).

(** [is_image_box]: the object has an [image] property. *)
Definition is_image_box (b : GraphicsBox) : bool :=
  match b with ImageTextBox _ _ _ => true | _ => false end.

Definition newline : Z := 10.

(** [is_math_like] of [TextBox.infer_text_height], over the set of the
    text's characters. *)
Fixpoint is_math_like_chars (chars : list jsstring) : bool :=
  match chars with
  | [] => true
  | c :: chars' =>
      if JS.leb (JS.lit "0") c && JS.leb c (JS.lit "9") then
        is_math_like_chars chars'
      else if JS.eqb c (JS.lit ",") || JS.eqb c (JS.lit ".")
              || JS.eqb c (JS.lit "+") || JS.eqb c (JS.lit "-")
              || JS.eqb c [8722%Z] || JS.eqb c (JS.lit "e") then
        is_math_like_chars chars'
      else false
  end.

Definition is_math_like (text : jsstring) : bool :=
  is_math_like_chars (JS.Set_of (JS.code_points text)).

(** [TextBox.infer_text_height] *)
Definition TextBox_infer_text_height (t : TextFields) : TextHeightMetric.t :=
  if JS.includes (text t) [newline] then TextHeightMetric.ascent_descent
  else if is_math_like (text t) then TextHeightMetric.cap
  else TextHeightMetric.ascent_descent.

(** [infer_text_height] of each class: [ImageTextBox] inherits that of
    [TextBox], [BaseExpo] asks its base, and [GraphicsContainer] and the
    abstract class answer [ascent_descent]. *)
Fixpoint infer_text_height (b : GraphicsBox) : TextHeightMetric.t :=
  match b with
  | TextBox _ t => TextBox_infer_text_height t
  | ImageTextBox _ t _ => TextBox_infer_text_height t
  | BaseExpo _ base _ => infer_text_height base
  | GraphicsContainer _ _ => TextHeightMetric.ascent_descent
  end.

(** [get nlines()] of [TextBox]. *)
Definition nlines (t : TextFields) : nat := length (JS.split (text t) newline).

(** [max] of core/util/array.

    Modelled from the spec: the helper is not among the sources; it is the
    largest number of a non-empty array, and it is only called on the widths
    of the lines of a text, of which there is at least one. *)
Definition array_max (values : list Q) : Q :=
  match values with
  | [] => 0
  | v :: values' => fold_left Qmax values' v
  end.

(** [max_by] of core/util/array.

    Modelled from the spec: the helper is not among the sources; it picks the
    item of the largest key, the first of them, and an empty array has none. *)
Definition max_by {T : Type} (array : list T) (key : T -> Z) : option T :=
  match array with
  | [] => None
  | first :: rest =>
      Some (fold_left
              (fun result value =>
                 if Z.ltb (key result) (key value) then value else result)
              rest first)
  end.

(** [metric_map] of the [visuals] setters. *)
Definition metric_map (metric : TextHeightMetric.t) : Z :=
  match metric with
  | TextHeightMetric.x => 0
  | TextHeightMetric.cap => 1
  | TextHeightMetric.ascent => 2
  | TextHeightMetric.x_descent => 3
  | TextHeightMetric.cap_descent => 4
  | TextHeightMetric.ascent_descent => 5
  end.

(** The truth value of a number. *)
Definition truthy (v : Q) : bool := negb (Qeq_bool v 0).

Definition falsy_angle (a : option Q) : bool :=
  match a with None => true | Some v => negb (truthy v) end.

Definition Math_abs (v : Q) : Q := Qabs v.

Section Boxes.
Context `{Services}.
Local Open Scope Q_scope.

(** [TextBox._text_line] *)
Definition _text_line (g : BoxFields) (t : TextFields) (fmetrics : FontMetrics)
    : Q * Q * Q :=
  let metric :=
    match text_height_metric g with
    | Some metric => metric
    | None => TextBox_infer_text_height t
    end in
  let ascent' :=
    match metric with
    | TextHeightMetric.x | TextHeightMetric.x_descent => x_height fmetrics
    | TextHeightMetric.cap | TextHeightMetric.cap_descent => cap_height fmetrics
    | TextHeightMetric.ascent | TextHeightMetric.ascent_descent => ascent fmetrics
    end in
  let descent' :=
    match metric with
    | TextHeightMetric.x | TextHeightMetric.cap | TextHeightMetric.ascent => 0
    | TextHeightMetric.x_descent | TextHeightMetric.cap_descent
    | TextHeightMetric.ascent_descent => descent fmetrics
    end in
  (ascent' + descent', ascent', descent').

Definition scale_of (override : option Q) : Q :=
  match override with Some value => value | None => 1 end.

(** [TextBox._size] *)
Definition TextBox_size (g : BoxFields) (t : TextFields) : Size :=
  let fmetrics := font_metrics (font t) in
  let line_spacing := (line_height t - 1) * fm_height fmetrics in
  let empty := JS.eqb (text t) [] in
  let lines := JS.split (text t) newline in
  let nlines := inject_Z (Z.of_nat (length lines)) in
  let widths := map (fun line => text_width line (font t)) lines in
  let '(text_line_height, _, _) := _text_line g t fmetrics in
  let text_height := text_line_height * nlines in
  let w_scale := scale_of (box_width g) in
  let h_scale := scale_of (box_height g) in
  {| width := array_max widths * w_scale;
     height := if empty then 0
               else (text_height + line_spacing * (nlines - 1)) * h_scale |}.

(** [ImageTextBox._size] *)
Definition ImageTextBox_size (g : BoxFields) (t : TextFields) (i : ImageFields)
    : Size :=
  match image i with
  | None => {| width := 0; height := 0 |}
  | Some _ =>
      let width' := ip_width (image_properties i) in
      let height' := ip_height (image_properties i) in
      let metrics := font_metrics (font t) in
      let height' :=
        if Qlt_le_dec height' (fm_height metrics) then fm_height metrics
        else height' in
      {| width := width' * scale_of (box_width g);
         height := height' * scale_of (box_height g) |}
  end.

(** [GraphicsBox.size]: the size of the box once rotated. *)
Definition rotated (a : option Q) (s : Size) : Size :=
  if falsy_angle a then s
  else
    let a' := match a with Some v => v | None => 0 end in
    let c := Math_cos (Math_abs a') in
    let s' := Math_sin (Math_abs a') in
    {| width := Math_abs (width s * c + height s * s');
       height := Math_abs (width s * s' + height s * c) |}.

(** The loop of [GraphicsContainer._size] over the sizes of the items. *)
Definition container_size (sizes : list Size) : Size :=
  fold_left
    (fun acc size =>
       {| width := width acc + width size;
          height := Qmax (height acc) (height size) |})
    sizes {| width := 0; height := 0 |}.

(** [BaseExpo._shift_scale], of the base. *)
Definition _shift_scale (base : GraphicsBox) : Q :=
  match base with
  | TextBox _ t | ImageTextBox _ t _ =>
      if Nat.eqb (nlines t) 1 then
        let fmetrics := font_metrics (font t) in
        x_height fmetrics / cap_height fmetrics
      else 2 # 3
  | _ => 2 # 3
  end.

(** [_size] of each class. *)
Fixpoint _size (b : GraphicsBox) : Size :=
  match b with
  | TextBox g t => TextBox_size g t
  | ImageTextBox g t i => ImageTextBox_size g t i
  | BaseExpo g base expo =>
      let bs := rotated (angle base) (_size base) in
      let es := rotated (angle expo) (_size expo) in
      {| width := width bs + width es;
         height := Qmax (height bs) (_shift_scale base * height bs + height es) |}
  | GraphicsContainer g items => container_size (map _size items)
  end.

(** [GraphicsBox.size] *)
Definition size (b : GraphicsBox) : Size := rotated (angle b) (_size b).

End Boxes.

Section Setters.
Context `{Services}.
Local Open Scope Q_scope.

(** The offset of a horizontal anchor in a box of width [w]. *)
Definition x_offset (a : XAnchor) (w : Q) : Q :=
  match a with
  | XNumber f => f * w
  | XNamed Left => 0
  | XNamed Center => (1 # 2) * w
  | XNamed Right => w
  end.

(** The offset of a vertical anchor in a box of height [h], as [BaseExpo] and
    [GraphicsContainer] resolve it: the baseline is taken at mid-height. *)
Definition y_offset (a : YAnchor) (h : Q) : Q :=
  match a with
  | YNumber f => f * h
  | YNamed Top => 0
  | YNamed VCenter => (1 # 2) * h
  | YNamed Bottom => h
  | YNamed Baseline => (1 # 2) * h
  end.

(** [_computed_position] of [BaseExpo] and of [GraphicsContainer], which are
    the same function of the box's fields and of its [_size()]. *)
Definition _computed_position (g : BoxFields) (s : Size) : Q * Q :=
  let p := _position g in
  let x_anchor' := default (XNamed (_x_anchor g)) (x_anchor p) in
  let y_anchor' := default (YNamed (_y_anchor g)) (y_anchor p) in
  (sx p - x_offset x_anchor' (width s), sy p - y_offset y_anchor' (height s)).

Definition is_top (a : YAnchor) : bool :=
  match a with YNamed Top => true | _ => false end.

(** [item_sy] of [GraphicsContainer.compute_items_positions] for the item
    [item] of a container whose items are [items]. *)
Definition item_sy (pos : Position) (items : list GraphicsBox)
    (item : GraphicsBox) : Q :=
  let y_anchor' := default (YNamed VCenter) (y_anchor pos) in
  let container_height := height (container_size (map _size items)) in
  let item_height := height (_size item) in
  let container_space :=
    if is_top y_anchor' then item_height - container_height else 0 in
  sy pos - container_space.

(** The position [compute_items_positions] gives an item: [pos] with its
    [sx] as accumulated so far. *)
Definition item_position (pos : Position) (sx' : Q)
    (items : list GraphicsBox) (item : GraphicsBox) : Position :=
  {| sx := sx';
     sy := item_sy pos items item;
     x_anchor := Some (XNamed Left);
     y_anchor := Some (default (YNamed VCenter) (y_anchor pos)) |}.

(** The walk of [GraphicsContainer.compute_items_positions] over the items
    after the first: [before] are the items already placed, [previous] the
    last of them, [sx'] the [pos.sx] reached and [place] the position setter
    of an item. *)
Fixpoint compute_items_positions
    (place : Position -> GraphicsBox -> option GraphicsBox) (pos : Position)
    (before : list GraphicsBox) (previous : GraphicsBox) (sx' : Q)
    (l : list GraphicsBox) {struct l} : option (list GraphicsBox) :=
  match l with
  | [] => Some []
  | item :: l' =>
      let sx'' := sx' + width (_size previous) in
      item' ← place (item_position pos sx'' (before ++ l) item) item;
      placed ← compute_items_positions place pos (before ++ [item']) item' sx'' l';
      Some (item' :: placed)
  end.

(** [set position(p)] of each class.

    [BaseExpo] lays its children out at once. [GraphicsContainer] copies the
    position, resolves its own left edge and runs [compute_items_positions];
    a container with no item throws at [this.items[n]._size()]. The first
    item is assigned a position twice in a row, and only the second
    assignment is modelled: an assignment leaves nothing of the one before it
    ([set_position_overwrites]). *)
Fixpoint set_position (p : Position) (b : GraphicsBox) {struct b}
    : option GraphicsBox :=
  match b with
  | TextBox g t => Some (TextBox (put_position p g) t)
  | ImageTextBox g t i => Some (ImageTextBox (put_position p g) t i)
  | BaseExpo g base expo =>
      let bs := size base in
      let es := size expo in
      let shift := _shift_scale base * height bs in
      let height' := Qmax (height bs) (shift + height es) in
      base' ← set_position
                {| sx := 0; x_anchor := Some (XNamed Left);
                   sy := height'; y_anchor := Some (YNamed Bottom) |} base;
      expo' ← set_position
                {| sx := width bs; x_anchor := Some (XNamed Left);
                   sy := shift; y_anchor := Some (YNamed Bottom) |} expo;
      Some (BaseExpo (put_position p g) base' expo')
  | GraphicsContainer g items =>
      let g' := put_position p g in
      let x := fst (_computed_position g' (container_size (map _size items))) in
      let pos := {| sx := x; sy := sy p;
                    x_anchor := x_anchor p; y_anchor := y_anchor p |} in
      match items with
      | [] => None
      | first :: rest =>
          first' ← set_position (item_position pos (sx pos) items first) first;
          rest' ← compute_items_positions
                    (fun p' item => set_position p' item)
                    pos [first'] first' (sx pos) rest;
          Some (GraphicsContainer g' (first' :: rest'))
      end
  end.

(** Every item in order through a setter that may throw. *)
Fixpoint for_each (f : GraphicsBox -> option GraphicsBox)
    (l : list GraphicsBox) : option (list GraphicsBox) :=
  match l with
  | [] => Some []
  | item :: l' =>
      item' ← f item;
      done ← for_each f l';
      Some (item' :: done)
  end.

(** [set visuals(v)] of [TextBox], inherited by [ImageTextBox]. *)
Definition TextBox_set_visuals (v : TextValues) (g : BoxFields) (t : TextFields)
    : BoxFields * TextFields :=
  let size' :=
    match parse_css_font_size (tv_font_size v) with
    | Some (value, unit) =>
        let value := value * font_size_scale g in
        if JS.eqb unit (JS.lit "em") && truthy (_base_font_size g)
        then number_to_string (value * _base_font_size g) ++ JS.lit "px"
        else number_to_string value ++ unit
    | None => tv_font_size v
    end in
  let font' := tv_font_style v ++ JS.lit " " ++ size' ++ JS.lit " " ++ tv_font v in
  let y_anchor' :=
    if JS.eqb (tv_baseline v) (JS.lit "top") then Top
    else if JS.eqb (tv_baseline v) (JS.lit "middle") then VCenter
    else if JS.eqb (tv_baseline v) (JS.lit "bottom") then Bottom
    else Baseline in
  (put_anchors (tv_align v) y_anchor' g,
   {| text := text t;
      color := color2css (tv_color v) (tv_alpha v);
      font := font';
      line_height := tv_line_height v;
      _visual_align := tv_align v |}).

(** [set visuals(v)] of each class, on a box whose [font_size_scale] is
    first set to [scale] when one is given: [BaseExpo] sets the scale of its
    exponent just before it hands the visuals down
    ([set_visuals_scaled_eq]). [GraphicsContainer] hands the visuals to every
    item, takes the largest of the items' inferred metrics and gives it to
    every item; [max_by] has no answer for an empty list. *)
Fixpoint set_visuals_scaled (scale : option Q) (v : TextValues)
    (b : GraphicsBox) {struct b} : option GraphicsBox :=
  let rescale g :=
    match scale with Some s => put_font_size_scale s g | None => g end in
  match b with
  | TextBox g t =>
      let '(g', t') := TextBox_set_visuals v (rescale g) t in
      Some (TextBox g' t')
  | ImageTextBox g t i =>
      let '(g', t') := TextBox_set_visuals v (rescale g) t in
      Some (ImageTextBox g' t' i)
  | BaseExpo g base expo =>
      base' ← set_visuals_scaled None v base;
      expo' ← set_visuals_scaled (Some (7 # 10)) v expo;
      Some (BaseExpo (rescale g) base' expo')
  | GraphicsContainer g items =>
      items' ← for_each (fun item => set_visuals_scaled None v item) items;
      common ← max_by (map infer_text_height items') metric_map;
      Some (GraphicsContainer (rescale g)
              (map (with_fields (put_text_height_metric common)) items'))
  end.

Definition set_visuals (v : TextValues) (b : GraphicsBox) : option GraphicsBox :=
  set_visuals_scaled None v b.

End Setters.

(** ** The math text views (models/text/math_text.ts) *)

(** The status of the provider.

    Modelled from the spec: the provider is not among the sources; its status
    is one of these four, and the views name the first, the second and the
    last. *)
Inductive Status : Type := not_started | loading | ready | failed.

(** A math span found by [find_tex]: [start.n], [end.n] and [math]. *)
Record TexPart : Type := { start_n : Z; end_n : Z; math : jsstring }.

(** An SVG element as the views read it: its [outerHTML], the numbers
    [get_image_properties] parses from its [height] and [width] attributes,
    and its [style] attribute, when it has one. *)
Record SVGElement : Type := {
  outerHTML : jsstring;
  heightEx : Q;
  widthEx : Q;
  style : option jsstring
}.

Record HTMLElement : Type := { children : list SVGElement }.

Abbreviation Macros := (list (jsstring * jsstring)) (only parsing).

(** The typesetting engine [provider.MathJax]; the options of [tex2svg] are
    [display], [em] and [ex], those of [mathml2svg] are [em] and [ex]. *)
Record MathJaxT : Type := {
  find_tex : jsstring -> list TexPart;
  tex2svg : jsstring -> bool * Q * Q -> Macros -> option HTMLElement;
  mathml2svg : jsstring -> Q * Q -> option HTMLElement
}.

(** The three concrete views, with the attributes of the model that only
    [TeX] has. *)
Inductive ViewKind : Type :=
| AsciiView
| MathMLView
| TeXView (macros : Macros) (inline : bool).

(** A decode in flight: [load_image] suspended at [await load_image(url)],
    for the box [decode_box] of the container. *)
Record Decode : Type := {
  decode_box : nat;
  decode_svg : SVGElement;
  decode_url : nat
}.

(** The state a view runs in: the view itself ([kind], the model's [text],
    its container with its items, [_has_finished]), the provider it shares
    ([status], [MathJax], the callbacks connected to [ready], each the box it
    will load), and its surroundings (the decodes in flight, the object URLs
    that exist and the count that names the next one, and how often the parent
    was asked to notify and to lay out). *)
Record State : Type := {
  kind : ViewKind;
  model_text : jsstring;
  container : BoxFields;
  items : list GraphicsBox;
  _has_finished : bool;
  status : Status;
  MathJax : option MathJaxT;
  ready_callbacks : list nat;
  pending : list Decode;
  object_urls : gset nat;
  url_counter : nat;
  notified_finished : nat;
  layout_requests : nat
}.

(** [MathTextView.parse_math_parts] *)
Definition parse_math_parts (mathjax : option MathJaxT) (text : jsstring)
    : list GraphicsBox :=
  match mathjax with
  | None => []
  | Some mj =>
      let tex_parts := find_tex mj text in
      let '(parts, last_index) :=
        fold_left
          (fun '(parts, last_index) part =>
             let _text := JS.slice text last_index (start_n part) in
             let parts :=
               match _text with
               | [] => parts
               | _ :: _ => parts ++ [new_TextBox _text]
               end in
             (parts ++ [new_ImageTextBox (math part)], end_n part))
          tex_parts ([], 0%Z) in
      if Z.ltb last_index (Z.of_nat (length text))
      then parts ++ [new_TextBox (JS.slice_from text last_index)]
      else parts
  end.

(** [MathTextView.has_images_loaded] *)
Definition image_of (b : GraphicsBox) : option CanvasImage :=
  match b with ImageTextBox _ _ i => image i | _ => None end.

Definition has_images_loaded (s : State) : bool :=
  forallb (fun b => bool_decide (is_Some (image_of b)))
          (filter (fun b => is_image_box b = true) (items s)).

Definition quote : jsstring := [34%Z].

Definition colon : Z := 58.

Definition semicolon : Z := 59.

Section Views.
Context `{Services}.
Local Open Scope Q_scope.

(** [MathMLView.styled_text] *)
Definition MathML_styled_text (text color : jsstring) : jsstring :=
  let styled := JS.trim text in
  match Regex.String_match styled math_open_re with
  | None => JS.trim text
  | Some matched =>
      let styled :=
        insert_text_on_position styled
          (JS.indexOf styled matched + Z.of_nat (length matched))%Z
          (JS.lit "<mstyle displaystyle=" ++ quote ++ JS.lit "true" ++ quote
             ++ JS.lit " mathcolor=" ++ quote ++ color2hexrgb color ++ quote
             ++ JS.lit ">") in
      match Regex.String_match styled math_close_re with
      | None => JS.trim text
      | Some matched =>
          insert_text_on_position styled (JS.indexOf styled matched)
            (JS.lit "</mstyle>")
      end
  end.

(** [TeXView.styled_text] *)
Definition TeX_styled_text (text color : jsstring) : jsstring :=
  let '(r, g, b) := color2rgba color in
  JS.lit "\color[RGB]{" ++ number_to_string (inject_Z r) ++ JS.lit ", "
    ++ number_to_string (inject_Z g) ++ JS.lit ", "
    ++ number_to_string (inject_Z b) ++ JS.lit "} " ++ text.

(** [styled_text] of each view. *)
Definition styled_text (s : State) (t : TextFields) : jsstring :=
  match kind s with
  | AsciiView => model_text s
  | MathMLView => MathML_styled_text (text t) (color t)
  | TeXView _ _ => TeX_styled_text (text t) (color t)
  end.

(** [_process_text] of each view, for the image box of fields [g] and [t]. *)
Definition _process_text (s : State) (g : BoxFields) (t : TextFields)
    : option HTMLElement :=
  match kind s with
  | AsciiView => None
  | MathMLView =>
      let fmetrics := font_metrics (font t) in
      mj ← MathJax s;
      mathml2svg mj (styled_text s t)
        (_base_font_size (container s), x_height fmetrics)
  | TeXView macros inline =>
      let fmetrics := font_metrics (font t) in
      mj ← MathJax s;
      tex2svg mj (styled_text s t)
        (negb inline, _base_font_size g, x_height fmetrics) macros
  end.

(** The callback of [svg_styles.forEach] in [get_image_properties]: one
    declaration of the style goes into the map under its trimmed name. A
    declaration with a name and no colon has no [value], and [value.trim()]
    throws. *)
Definition set_rule (rules_map : gmap jsstring jsstring) (property : jsstring)
    : option (gmap jsstring jsstring) :=
  match JS.split property colon with
  | (_ :: _) as rule :: value :: _ =>
      Some (<[JS.trim rule := JS.trim value]> rules_map)
  | (_ :: _) :: [] => None
  | _ => Some rules_map
  end.

(** [MathTextView.get_image_properties]; [None] when it throws. *)
Definition get_image_properties (svg_element : SVGElement)
    (fmetrics : FontMetrics) : option ImageProperties :=
  v_align' ←
    match style svg_element with
    | None => Some (descent fmetrics)
    | Some style' =>
        rules_map ←
          fold_left (fun rules_map property => rules_map ≫= flip set_rule property)
            (JS.split style' semicolon) (Some ∅);
        v_align_length ← parse_css_length (rules_map !! JS.lit "vertical-align");
        Some match v_align_length with
             | Some (value, unit) =>
                 if JS.eqb unit (JS.lit "ex") then
                   descent fmetrics + value * x_height fmetrics
                 else if JS.eqb unit (JS.lit "px") then descent fmetrics + value
                 else descent fmetrics
             | None => descent fmetrics
             end
    end;
  Some {| ip_width := x_height fmetrics * widthEx svg_element;
          ip_height := x_height fmetrics * heightEx svg_element;
          v_align := v_align' |}.

(** [this.provider.ready.connect(() => this.load_image(image_box))] and
    [this._has_finished = false]. *)
Definition wait_for_provider (i : nat) (s : State) : State :=
  {| kind := kind s; model_text := model_text s; container := container s;
     items := items s; _has_finished := false; status := status s;
     MathJax := MathJax s; ready_callbacks := ready_callbacks s ++ [i];
     pending := pending s; object_urls := object_urls s;
     url_counter := url_counter s; notified_finished := notified_finished s;
     layout_requests := layout_requests s |}.

(** [this._has_finished = true] and [this.parent.notify_finished_after_paint()]. *)
Definition finish (s : State) : State :=
  {| kind := kind s; model_text := model_text s; container := container s;
     items := items s; _has_finished := true; status := status s;
     MathJax := MathJax s; ready_callbacks := ready_callbacks s;
     pending := pending s; object_urls := object_urls s;
     url_counter := url_counter s;
     notified_finished := S (notified_finished s);
     layout_requests := layout_requests s |}.

(** [URL.createObjectURL(blob)] and the call [load_image(url)] on which the
    function then waits. *)
Definition start_decode (i : nat) (svg_element : SVGElement) (s : State) : State :=
  let url := url_counter s in
  {| kind := kind s; model_text := model_text s; container := container s;
     items := items s; _has_finished := _has_finished s; status := status s;
     MathJax := MathJax s; ready_callbacks := ready_callbacks s;
     pending := pending s ++ [{| decode_box := i; decode_svg := svg_element;
                                 decode_url := url |}];
     object_urls := {[url]} ∪ object_urls s;
     url_counter := S url; notified_finished := notified_finished s;
     layout_requests := layout_requests s |}.

(** [MathTextView.load_image] up to its [await]: it returns at once, or it
    leaves a decode in flight. An element without children makes it throw at
    [svg_element.outerHTML], which rejects its promise and changes nothing. A
    box that is no image box of the container is no argument of the function
    by its type. *)
Definition load_image (i : nat) (s : State) : State :=
  if negb (has_images_loaded s)
     && match status s with not_started | loading => true | _ => false end
  then wait_for_provider i s
  else if negb (_has_finished s)
          && (match status s with failed => true | _ => false end
              || has_images_loaded s)
  then finish s
  else
    match items s !! i with
    | Some (ImageTextBox g t _) =>
        match _process_text s g t with
        | None => finish s
        | Some mathjax_element =>
            match children mathjax_element with
            | [] => s
            | svg_element :: _ => start_decode i svg_element s
            end
        end
    | _ => s
    end.

(** The [finally] of the decode: the decode [k] is over and
    [URL.revokeObjectURL(url)] has run. *)
Definition release (k : nat) (d : Decode) (s : State) : State :=
  {| kind := kind s; model_text := model_text s; container := container s;
     items := items s; _has_finished := _has_finished s; status := status s;
     MathJax := MathJax s; ready_callbacks := ready_callbacks s;
     pending := delete k (pending s);
     object_urls := object_urls s ∖ {[decode_url d]};
     url_counter := url_counter s; notified_finished := notified_finished s;
     layout_requests := layout_requests s |}.

(** The items of the view are replaced. *)
Definition put_items (items' : list GraphicsBox) (s : State) : State :=
  {| kind := kind s; model_text := model_text s; container := container s;
     items := items'; _has_finished := _has_finished s; status := status s;
     MathJax := MathJax s; ready_callbacks := ready_callbacks s;
     pending := pending s; object_urls := object_urls s;
     url_counter := url_counter s; notified_finished := notified_finished s;
     layout_requests := layout_requests s |}.

(** [image_box.image = svg_image] *)
Definition assign_image (d : Decode) (svg_image : CanvasImage) (s : State) : State :=
  match items s !! decode_box d with
  | Some (ImageTextBox g t im) =>
      put_items
        (<[decode_box d :=
             ImageTextBox g t
               {| image := Some svg_image;
                  image_properties := image_properties im |}]> (items s)) s
  | _ => s
  end.

(** [image_box.image_properties = this.get_image_properties(...)]; [None]
    when [get_image_properties] throws, and nothing is assigned. *)
Definition assign_image_properties (d : Decode) (s : State) : option State :=
  match items s !! decode_box d with
  | Some (ImageTextBox g t im) =>
      properties ← get_image_properties (decode_svg d) (font_metrics (font t));
      Some (put_items
              (<[decode_box d :=
                   ImageTextBox g t
                     {| image := image im; image_properties := properties |}]>
                 (items s)) s)
  | _ => Some s
  end.

(** [this.parent.request_layout()] *)
Definition request_layout (s : State) : State :=
  {| kind := kind s; model_text := model_text s; container := container s;
     items := items s; _has_finished := _has_finished s; status := status s;
     MathJax := MathJax s; ready_callbacks := ready_callbacks s;
     pending := pending s; object_urls := object_urls s;
     url_counter := url_counter s; notified_finished := notified_finished s;
     layout_requests := S (layout_requests s) |}.

(** [MathTextView.load_image] from its [await] on, when the decode [k] gives
    the image [svg_image]. When [get_image_properties] throws, the promise of
    the function is rejected there: the box has its image, and neither a
    layout is asked for nor the view finished. *)
Definition decode_resolved (k : nat) (svg_image : CanvasImage) (s : State) : State :=
  match pending s !! k with
  | None => s
  | Some d =>
      let s := assign_image d svg_image (release k d s) in
      match assign_image_properties d s with
      | None => s
      | Some s =>
          let s := request_layout s in
          if has_images_loaded s then finish s else s
      end
  end.

(** [MathTextView.load_image] from its [await] on, when the decode [k] is
    rejected: the [finally] runs and the rejection leaves the function. *)
Definition decode_rejected (k : nat) (s : State) : State :=
  match pending s !! k with
  | None => s
  | Some d => release k d s
  end.

(** [ImageTextBox.paint] of the item [i] of the container, as far as the state
    goes: with no image it calls its [load_image] and returns, with one it
    only draws. The other boxes that [parse_math_parts] builds only draw. *)
Definition paint (i : nat) (s : State) : State :=
  match items s !! i with
  | Some (ImageTextBox _ _ im) =>
      match image im with
      | None => load_image i s
      | Some _ => s
      end
  | _ => s
  end.

(** [GraphicsContainer.paint]: every item in order. *)
Definition paint_container (s : State) : State :=
  fold_left (fun s i => paint i s) (seq 0 (length (items s))) s.

(** The provider settles and tells so.

    Modelled from the spec: the provider is not among the sources; its
    readiness notification fires once, when its status leaves [not_started]
    or [loading] for [ready] or [failed], and runs the connected callbacks
    in the order of their connection. *)
Definition provider_settled (mathjax : option MathJaxT) (s : State) : State :=
  match status s with
  | not_started | loading =>
      let s' :=
        {| kind := kind s; model_text := model_text s; container := container s;
           items := items s; _has_finished := _has_finished s;
           status := match mathjax with Some _ => ready | None => failed end;
           MathJax := mathjax; ready_callbacks := ready_callbacks s;
           pending := pending s; object_urls := object_urls s;
           url_counter := url_counter s;
           notified_finished := notified_finished s;
           layout_requests := layout_requests s |} in
      fold_left (fun s i => load_image i s) (ready_callbacks s) s'
  | _ => s
  end.

(** What happens to a view between two turns of the event loop. *)
Inductive Event : Type :=
| Paint (i : nat)
| PaintContainer
| LoadImage (i : nat)
| DecodeResolved (k : nat) (svg_image : CanvasImage)
| DecodeRejected (k : nat)
| ProviderSettled (mathjax : option MathJaxT).

Definition step (s : State) (e : Event) : State :=
  match e with
  | Paint i => paint i s
  | PaintContainer => paint_container s
  | LoadImage i => load_image i s
  | DecodeResolved k svg_image => decode_resolved k svg_image s
  | DecodeRejected k => decode_rejected k s
  | ProviderSettled mathjax => provider_settled mathjax s
  end.

Definition run (s : State) (events : list Event) : State :=
  fold_left step events s.

(** The decodes in flight for the box [i]. *)
Definition in_flight (i : nat) (s : State) : list Decode :=
  filter (fun d => decode_box d = i) (pending s).

End Views.

(** The fields of the text of a box that is an instance of [TextBox]. *)
Definition text_fields (b : GraphicsBox) : option TextFields :=
  match b with
  | TextBox _ t | ImageTextBox _ t _ => Some t
  | _ => None
  end.

(** No container in the box is without items: the boxes whose setters do
    not throw. *)
Fixpoint has_items (b : GraphicsBox) : bool :=
  match b with
  | TextBox _ _ | ImageTextBox _ _ _ => true
  | BaseExpo _ base expo => has_items base && has_items expo
  | GraphicsContainer _ items =>
      match items with [] => false | _ :: _ => forallb has_items items end
  end.

(** What a position setter leaves as it was: the size, the angle and the
    shift scale the box has as a base. *)
Definition same_extent `{Services} (b b' : GraphicsBox) : Prop :=
  _size b' = _size b /\ angle b' = angle b /\ _shift_scale b' = _shift_scale b.


(** Every object URL that exists belongs to one decode in flight, and the
    other way round; the URLs of the decodes differ and are older than the
    next one. *)
Definition urls_accounted (s : State) : Prop :=
  NoDup (decode_url <$> pending s)
  /\ (forall u, u ∈ object_urls s <-> u ∈ decode_url <$> pending s)
  /\ (forall u, u ∈ object_urls s -> (u < url_counter s)%nat).

(** The engine is there exactly when the provider is ready.

    Modelled from the spec: the provider is not among the sources; it goes
    from not started through fetching to ready or failed, and it has its
    engine once it is ready. *)
Definition engine_as_status (s : State) : Prop :=
  match status s with
  | ready => is_Some (MathJax s)
  | not_started | loading | failed => MathJax s = None
  end.



(** ** The words of the specification *)




(** The sum and the largest of a list of numbers. *)
Definition sum_of (values : list Q) : Q := fold_right Qplus 0%Q values.

Fixpoint largest_of (first : Q) (others : list Q) : Q :=
  match others with
  | [] => first
  | v :: others' => Qmax first (largest_of v others')
  end.

(** ** Sample services and inputs *)

(** Services of a fixed font: every font has line height 12, ascent 8,
    descent 2, cap height 5 and x height 3, every code unit is one wide, no
    length is parsed and the parsing of [undefined] throws, a colour is given
    in hexadecimal already, and nothing is rotated. *)
Definition sample_services : Services :=
  {| font_metrics := fun _ =>
       {| fm_height := 12; ascent := 8; descent := 2;
          cap_height := 5; x_height := 3 |};
     text_width := fun s _ => inject_Z (Z.of_nat (length s));
     parse_css_font_size := fun _ => None;
     parse_css_length := fun size =>
       match size with Some _ => Some None | None => None end;
     color2css := fun c _ => c;
     color2hexrgb := fun c => c;
     color2rgba := fun _ => (0, 0, 0)%Z;
     number_to_string := fun _ => [];
     Math_cos := fun _ => 1%Q;
     Math_sin := fun _ => 0%Q |}.

(** An engine that finds no math and converts everything to one SVG. *)
Definition sample_svg : SVGElement :=
  {| outerHTML := JS.lit "<svg></svg>"; heightEx := 2; widthEx := 3;
     style := Some (JS.lit "vertical-align: -0.566ex;") |}.

Definition sample_engine : MathJaxT :=
  {| find_tex := fun _ => [];
     tex2svg := fun _ _ _ => Some {| children := [sample_svg] |};
     mathml2svg := fun _ _ => Some {| children := [sample_svg] |} |}.

(** A [TeX] view of one math box and no image yet. *)
Definition sample_state (st : Status) (mathjax : option MathJaxT) : State :=
  {| kind := TeXView [] false; model_text := JS.lit "$$x$$";
     container := new_GraphicsBox; items := [new_ImageTextBox (JS.lit "x")];
     _has_finished := false; status := st; MathJax := mathjax;
     ready_callbacks := []; pending := []; object_urls := ∅; url_counter := 0;
     notified_finished := 0; layout_requests := 0 |}.

(** A text box that a negative height override turns upside down. *)
Definition sunk_box : GraphicsBox :=
  TextBox
    {| _position := {| sx := 0; sy := 0; x_anchor := None; y_anchor := None |};
       _angle := None; box_width := None; box_height := Some (-1)%Q;
       font_size_scale := 1; text_height_metric := None; align := AlignTo Left;
       _base_font_size := 13; _x_anchor := Left; _y_anchor := VCenter |}
    {| text := JS.lit "a"; color := []; font := []; line_height := 1;
       _visual_align := Left |}.

(** A base 10 high of scale 0.6 and an exponent 8 high, under the sample
    services. *)
Definition sample_base : GraphicsBox := new_TextBox (JS.lit "x").

Definition sample_expo : GraphicsBox :=
  TextBox
    {| _position := {| sx := 0; sy := 0; x_anchor := None; y_anchor := None |};
       _angle := None; box_width := None; box_height := Some (4 # 5);
       font_size_scale := 1; text_height_metric := None; align := AlignTo Left;
       _base_font_size := 13; _x_anchor := Left; _y_anchor := VCenter |}
    {| text := JS.lit "n"; color := []; font := []; line_height := 1;
       _visual_align := Left |}.

(** The values of a plain text visual. *)
Definition sample_values : TextValues :=
  {| tv_color := JS.lit "black"; tv_alpha := 1; tv_font_style := JS.lit "normal";
     tv_font_size := JS.lit "11px"; tv_font := JS.lit "serif";
     tv_line_height := 1; tv_align := Left; tv_baseline := JS.lit "bottom" |}.

(** ** More of the boxes: the cascading setters and the measures of a list *)

Definition put_angle (a : Q) (g : BoxFields) : BoxFields :=
  {| _position := _position g; _angle := Some a; box_width := box_width g;
     box_height := box_height g; font_size_scale := font_size_scale g;
     text_height_metric := text_height_metric g; align := align g;
     _base_font_size := _base_font_size g; _x_anchor := _x_anchor g;
     _y_anchor := _y_anchor g |}.

Definition clear_angle (g : BoxFields) : BoxFields :=
  {| _position := _position g; _angle := None; box_width := box_width g;
     box_height := box_height g; font_size_scale := font_size_scale g;
     text_height_metric := text_height_metric g; align := align g;
     _base_font_size := _base_font_size g; _x_anchor := _x_anchor g;
     _y_anchor := _y_anchor g |}.

Definition put_base_font_size (v : Q) (g : BoxFields) : BoxFields :=
  {| _position := _position g; _angle := _angle g; box_width := box_width g;
     box_height := box_height g; font_size_scale := font_size_scale g;
     text_height_metric := text_height_metric g; align := align g;
     _base_font_size := v; _x_anchor := _x_anchor g; _y_anchor := _y_anchor g |}.

(** [set angle(v)] of [GraphicsBox], on the fields: [undefined] is ignored. *)
Definition GraphicsBox_set_angle (v : option Q) (g : BoxFields) : BoxFields :=
  match v with Some a => put_angle a g | None => g end.

(** [set angle(a)] of each class. Only [GraphicsContainer] overrides the
    setter: it stores what it is given and hands it to every item. [BaseExpo]
    inherits the setter of [GraphicsBox] and leaves its children alone. *)
Fixpoint set_angle (v : option Q) (b : GraphicsBox) {struct b} : GraphicsBox :=
  match b with
  | TextBox g t => TextBox (GraphicsBox_set_angle v g) t
  | ImageTextBox g t i => ImageTextBox (GraphicsBox_set_angle v g) t i
  | BaseExpo g base expo => BaseExpo (GraphicsBox_set_angle v g) base expo
  | GraphicsContainer g items =>
      GraphicsContainer
        (match v with Some a => put_angle a g | None => clear_angle g end)
        (map (fun item => set_angle v item) items)
  end.

(** [set base_font_size(v)] of [GraphicsBox], on the fields: [null] and
    [undefined] are ignored. *)
Definition GraphicsBox_set_base_font_size (v : option Q) (g : BoxFields)
    : BoxFields :=
  match v with Some size => put_base_font_size size g | None => g end.

(** [set base_font_size(v)] of each class: [BaseExpo] hands the value to its
    base and its exponent, [GraphicsContainer] to every item. *)
Fixpoint set_base_font_size (v : option Q) (b : GraphicsBox) {struct b}
    : GraphicsBox :=
  match b with
  | TextBox g t => TextBox (GraphicsBox_set_base_font_size v g) t
  | ImageTextBox g t i => ImageTextBox (GraphicsBox_set_base_font_size v g) t i
  | BaseExpo g base expo =>
      BaseExpo (GraphicsBox_set_base_font_size v g)
        (set_base_font_size v base) (set_base_font_size v expo)
  | GraphicsContainer g items =>
      GraphicsContainer (GraphicsBox_set_base_font_size v g)
        (map (fun item => set_base_font_size v item) items)
  end.

(** The boxes right under a box: [get children()] of [BaseExpo], the items
    of a [GraphicsContainer], and none for a box of text. *)
Definition box_children (b : GraphicsBox) : list GraphicsBox :=
  match b with
  | TextBox _ _ | ImageTextBox _ _ _ => []
  | BaseExpo _ base expo => [base; expo]
  | GraphicsContainer _ items => items
  end.

(** The fields of a box and of every box in it. *)
Fixpoint all_fields (b : GraphicsBox) : list BoxFields :=
  match b with
  | TextBox g _ | ImageTextBox g _ _ => [g]
  | BaseExpo g base expo => g :: all_fields base ++ all_fields expo
  | GraphicsContainer g items => g :: flat_map all_fields items
  end.

Section Measures.
Context `{Services}.
Local Open Scope Q_scope.

(** [GraphicsBoxes.max_size], of the items of the list. *)
Definition max_size (items : list GraphicsBox) : Size :=
  fold_left
    (fun acc item =>
       let size' := size item in
       {| width := Qmax (width acc) (width size');
          height := Qmax (height acc) (height size') |})
    items {| width := 0; height := 0 |}.

(** [v_aligns] of [GraphicsContainer]. *)
Definition v_aligns (items : list GraphicsBox) : list Q :=
  map (fun item =>
         match item with
         | ImageTextBox _ _ i => v_align (image_properties i)
         | _ => 0
         end) items.

(** [max_v_align] of [GraphicsContainer]: the reduction keeps the largest
    absolute value met so far, and [max_value] the value that has it. *)
Definition max_v_align (items : list GraphicsBox) : Q :=
  let values :=
    map (fun item =>
           match item with
           | ImageTextBox _ _ i => v_align (image_properties i)
           | _ => 0
           end)
        (List.filter is_image_box items) in
  snd (fold_left
         (fun '(max, max_value) value =>
            if Qlt_le_dec max (Math_abs value) then (Math_abs value, value)
            else (max, max_value))
         values (0, 0)).

End Measures.

(** ** More words of the specification *)

(** The spans of a text lie in it one after the other, from [from] on. *)
Fixpoint spans_in_order (from : Z) (len : Z) (parts : list TexPart) : Prop :=
  match parts with
  | [] => (0 <= from <= len)%Z
  | part :: parts' =>
      (0 <= from <= start_n part)%Z /\ (start_n part <= end_n part)%Z
      /\ spans_in_order (end_n part) len parts'
  end.

(** The text that a list of parts stands for: the text of a [TextBox] as it
    is, and for an image box the stretch of [source] of the span it was made
    for. *)
Fixpoint reassemble (source : jsstring) (parts : list TexPart)
    (items : list GraphicsBox) : jsstring :=
  match items with
  | [] => []
  | ImageTextBox _ _ _ :: items' =>
      match parts with
      | part :: parts' =>
          JS.slice source (start_n part) (end_n part)
            ++ reassemble source parts' items'
      | [] => reassemble source [] items'
      end
  | TextBox _ t :: items' => text t ++ reassemble source parts items'
  | _ :: items' => reassemble source parts items'
  end.

(** The loop of [parse_math_parts] from [last_index] on, with the text box
    that may close it. *)
Fixpoint parts_from (source : list Z) (last_index : Z) (parts : list TexPart)
    : list GraphicsBox :=
  match parts with
  | [] =>
      if Z.ltb last_index (Z.of_nat (length source))
      then [new_TextBox (JS.slice_from source last_index)]
      else []
  | part :: parts' =>
      match JS.slice source last_index (start_n part) with
      | [] => []
      | c :: gap => [new_TextBox (c :: gap)]
      end ++ new_ImageTextBox (math part) :: parts_from source (end_n part) parts'
  end.

(** An item of a list is, after a run of the view, the item it was, but
    for the image and its properties that an image box may have got. *)
Definition same_item (b b' : GraphicsBox) : Prop :=
  match b with
  | ImageTextBox g t im =>
      exists im', b' = ImageTextBox g t im'
                  /\ (is_Some (image im) -> is_Some (image im'))
  | _ => b' = b
  end.

(** What stays as it is through [load_image] and through the paint of an
    item: everything of the view but its flag, and all its items. *)
Definition view_kept (s s' : State) : Prop :=
  kind s' = kind s /\ model_text s' = model_text s
  /\ container s' = container s /\ List.Forall2 same_item (items s) (items s').

(** Every image box of the container but the item [i] has its image. *)
Definition others_loaded (s : State) (i : nat) : Prop :=
  forall j b, j <> i -> items s !! j = Some b -> is_image_box b = true ->
              is_Some (image_of b).

(** The metric is [cap]. *)
Definition is_cap (m : TextHeightMetric.t) : bool :=
  match m with TextHeightMetric.cap => true | _ => false end.

(** A stretch of text up to its first [>], in which [math] begins
    nowhere. *)
Fixpoint run_plain (s : jsstring) : bool :=
  match s with
  | [] => false
  | a :: s' =>
      Z.eqb a 62
      || (negb (JS.starts_with s (JS.lit "math")) && run_plain s')
  end.

(** Every closing tag that begins in the text is complete in it and has no
    [math] in its name, and the text does not end on a [<]. *)
Fixpoint tags_plain (s : jsstring) : bool :=
  match s with
  | [] => true
  | a :: s' =>
      (if Z.eqb a 60 then
         match s' with
         | [] => false
         | b :: s'' => if Z.eqb b 47 then run_plain s'' else true
         end
       else true)
      && tags_plain s'
  end.

(** The wrapper that [MathMLView.styled_text] opens, for a colour in
    hexadecimal. *)
Definition mstyle_open (hex : jsstring) : jsstring :=
  JS.lit "<mstyle displaystyle=" ++ quote ++ JS.lit "true" ++ quote
    ++ JS.lit " mathcolor=" ++ quote ++ hex ++ quote ++ JS.lit ">".

(** ** Painting: the calls on the drawing context *)

(** The calls that the boxes make on the [Context2d] they are given, in the
    order they make them; the context itself is not part of the sources. *)
Inductive Call : Type :=
| Save
| Restore
| Translate (x y : Q)
| Rotate (a : Q)
| SetFillStyle (c : jsstring)
| SetFont (f : jsstring)
| SetTextAlign (a : jsstring)
| SetTextBaseline (b : jsstring)
| FillText (s : jsstring) (x y : Q)
| DrawImage (img : CanvasImage) (x y w h : Q).

(** [sum] of core/util/array.

    Modelled from the spec: the helper is not among the sources; it adds up
    the numbers of an array from 0. *)
Definition array_sum (values : list Q) : Q := fold_left Qplus values 0%Q.

Definition space : Z := 32.

Section Painting.
Context `{Services}.
Local Open Scope Q_scope.

(** The three calls under [if (angle)] that turn the context about the
    anchor. *)
Definition turn_about (g : BoxFields) : list Call :=
  if falsy_angle (_angle g) then []
  else
    let a := match _angle g with Some v => v | None => 0 end in
    [ Translate (sx (_position g)) (sy (_position g));
      Rotate a;
      Translate (- sx (_position g)) (- sy (_position g)) ].

(** The height that the baseline of a text of one line is under its top, by
    the metric of the box: the same choice that [_text_line] makes for its
    ascent. *)
Definition baseline_offset (g : BoxFields) (t : TextFields)
    (metrics : FontMetrics) : Q :=
  let metric :=
    match text_height_metric g with
    | Some metric => metric
    | None => TextBox_infer_text_height t
    end in
  match metric with
  | TextHeightMetric.x | TextHeightMetric.x_descent => x_height metrics
  | TextHeightMetric.cap | TextHeightMetric.cap_descent => cap_height metrics
  | TextHeightMetric.ascent | TextHeightMetric.ascent_descent => ascent metrics
  end.

(** [TextBox._computed_position] *)
Definition TextBox_computed_position (g : BoxFields) (t : TextFields)
    (size' : Size) (metrics : FontMetrics) (nlines' : nat) : Q * Q :=
  let p := _position g in
  let x_anchor' := default (XNamed (_x_anchor g)) (x_anchor p) in
  let y_anchor' := default (YNamed (_y_anchor g)) (y_anchor p) in
  let x := sx p - x_offset x_anchor' (width size') in
  let y :=
    sy p
    - match y_anchor' with
      | YNumber f => f * height size'
      | YNamed Top => 0
      | YNamed VCenter => (1 # 2) * height size'
      | YNamed Bottom => height size'
      | YNamed Baseline =>
          if Nat.eqb nlines' 1 then baseline_offset g t metrics
          else (1 # 2) * height size'
      end in
  (x, y).

(** [ImageTextBox._computed_position] *)
Definition ImageTextBox_computed_position (g : BoxFields) (i : ImageFields)
    (size' : Size) (metrics : FontMetrics) : Q * Q :=
  let p := _position g in
  match image i with
  | None => (sx p, sy p)
  | Some _ =>
      let x_anchor' := default (XNamed (_x_anchor g)) (x_anchor p) in
      let y_anchor' := default (YNamed (_y_anchor g)) (y_anchor p) in
      let v_align' := v_align (image_properties i) in
      let x := sx p - x_offset x_anchor' (width size') in
      let y :=
        sy p
        - match y_anchor' with
          | YNumber f => f * height size'
          | YNamed Top =>
              if Qlt_le_dec (height size') (fm_height metrics)
              then height size' - fm_height metrics + v_align'
              else 0
          | YNamed VCenter => (1 # 2) * height size'
          | YNamed Bottom =>
              if Qlt_le_dec (height size') (fm_height metrics)
              then height size' + v_align'
              else height size'
          | YNamed Baseline => (1 # 2) * height size'
          end in
      (x, y)
  end.

(** The inner loop of the justified branch of [TextBox.paint]: the words of
    one line, each [word_spacing] after the one before. *)
Fixpoint fill_words (words : list jsstring) (word_widths : list Q)
    (word_spacing xij y : Q) : list Call :=
  match words, word_widths with
  | word :: words', word_width :: word_widths' =>
      FillText word xij y
        :: fill_words words' word_widths' word_spacing
             (xij + (word_width + word_spacing)) y
  | _, _ => []
  end.

(** The spacing of the words of a justified line. *)
Definition word_spacing_of (font' : jsstring) (width' : Q) (line : jsstring) : Q :=
  let words := JS.split line space in
  let nwords := inject_Z (Z.of_nat (length words)) in
  let word_widths := map (fun word => text_width word font') words in
  (width' - array_sum word_widths) / (nwords - 1).

(** The justified branch of [TextBox.paint], over the lines. *)
Fixpoint fill_justified (font' : jsstring) (lines : list jsstring)
    (width' x y line_step : Q) : list Call :=
  match lines with
  | [] => []
  | line :: lines' =>
      let words := JS.split line space in
      let word_widths := map (fun word => text_width word font') words in
      fill_words words word_widths (word_spacing_of font' width' line) x y
        ++ fill_justified font' lines' width' x (y + line_step) line_step
  end.

(** The shift of a line by the alignment of the box. *)
Definition align_shift (a : HAlign) (width' line_width : Q) : Q :=
  match a with
  | Left => 0
  | Center => (1 # 2) * (width' - line_width)
  | Right => width' - line_width
  end.

(** The other branch of [TextBox.paint], over the lines and their widths. *)
Fixpoint fill_aligned (color' : jsstring) (a : HAlign)
    (lines : list (jsstring * Q)) (width' x y ascent' line_step : Q)
    : list Call :=
  match lines with
  | [] => []
  | (line, line_width) :: lines' =>
      SetFillStyle color'
        :: FillText line (x + align_shift a width' line_width) (y + ascent')
        :: fill_aligned color' a lines' width' x (y + line_step) ascent' line_step
  end.

(** [TextBox.paint] *)
Definition TextBox_paint (g : BoxFields) (t : TextFields) : list Call :=
  let fmetrics := font_metrics (font t) in
  let line_spacing := (line_height t - 1) * fm_height fmetrics in
  let lines := JS.split (text t) newline in
  let nlines' := length lines in
  let widths := map (fun line => text_width line (font t)) lines in
  let '(text_line_height, text_line_ascent, _) := _text_line g t fmetrics in
  let text_height := text_line_height * inject_Z (Z.of_nat nlines') in
  let width' := array_max widths * scale_of (box_width g) in
  let height' :=
    (text_height + line_spacing * (inject_Z (Z.of_nat nlines') - 1))
    * scale_of (box_height g) in
  let '(x, y) :=
    TextBox_computed_position g t {| width := width'; height := height' |}
      fmetrics nlines' in
  [ Save; SetFillStyle (color t); SetFont (font t);
    SetTextAlign (JS.lit "left"); SetTextBaseline (JS.lit "alphabetic") ]
    ++ turn_about g
    ++ match align g with
       | AlignJustify =>
           fill_justified (font t) lines width' x y
             (text_line_height + line_spacing)
       | AlignAuto =>
           fill_aligned (color t) (_visual_align t) (combine lines widths)
             width' x y text_line_ascent (text_line_height + line_spacing)
       | AlignTo a =>
           fill_aligned (color t) a (combine lines widths)
             width' x y text_line_ascent (text_line_height + line_spacing)
       end
    ++ [Restore].

(** [ImageTextBox.paint], as far as it draws: without an image it makes no
    call on the context. *)
Definition ImageTextBox_paint (g : BoxFields) (t : TextFields) (i : ImageFields)
    : list Call :=
  match image i with
  | None => []
  | Some img =>
      let width' := ip_width (image_properties i) in
      let height' := ip_height (image_properties i) in
      let '(x, y) :=
        ImageTextBox_computed_position g i
          {| width := width'; height := height' |} (font_metrics (font t)) in
      [Save] ++ turn_about g ++ [DrawImage img x y width' height'; Restore]
  end.

(** [paint] of each class, as far as it draws. *)
Fixpoint paint_calls (b : GraphicsBox) : list Call :=
  match b with
  | TextBox g t => TextBox_paint g t
  | ImageTextBox g t i => ImageTextBox_paint g t i
  | BaseExpo g base expo =>
      let '(x, y) := _computed_position g (_size b) in
      [Save] ++ turn_about g ++ [Translate x y]
        ++ paint_calls base ++ paint_calls expo ++ [Restore]
  | GraphicsContainer g items => flat_map paint_calls items
  end.

End Painting.

(** The depth of saved states after the calls, from the depth [d]; [None]
    when a state is restored that was not saved. *)
Fixpoint nesting (calls : list Call) (d : nat) : option nat :=
  match calls with
  | [] => Some d
  | Save :: calls' => nesting calls' (S d)
  | Restore :: calls' =>
      match d with
      | O => None
      | S d' => nesting calls' d'
      end
  | _ :: calls' => nesting calls' d
  end.

(** The texts that the calls fill, each with where. *)
Definition fills (calls : list Call) : list (jsstring * Q * Q) :=
  flat_map (fun c => match c with FillText s x y => [(s, x, y)] | _ => [] end)
    calls.

(** The [y] of the line [k] in the loops of [TextBox.paint]: the step is
    added to the [y] of the first line [k] times, one line after the other. *)
Definition line_y (y step : Q) (k : nat) : Q :=
  Nat.iter k (fun y => (y + step)%Q) y.

(** The [xij] of the word [j] of a line in the justified loop: to the [x] of
    the line the width of each word before it is added with the spacing, one
    word after the other. *)
Definition word_x (x word_spacing : Q) (word_widths : list Q) (j : nat) : Q :=
  fold_left (fun xij word_width => (xij + (word_width + word_spacing))%Q)
    (take j word_widths) x.

(** The alignment by which [TextBox.paint] shifts its lines, when it does
    not justify them. *)
Definition alignment (g : BoxFields) (t : TextFields) : option HAlign :=
  match align g with
  | AlignAuto => Some (_visual_align t)
  | AlignTo a => Some a
  | AlignJustify => None
  end.

Section PaintedBox.
Context `{Services}.
Local Open Scope Q_scope.

(** The width and the height that [TextBox.paint] works out, and the corner
    that [_computed_position] gives it for them. *)
Definition painted_size (g : BoxFields) (t : TextFields) : Size :=
  let fmetrics := font_metrics (font t) in
  let line_spacing := (line_height t - 1) * fm_height fmetrics in
  let lines := JS.split (text t) newline in
  let n := inject_Z (Z.of_nat (length lines)) in
  let widths := map (fun line => text_width line (font t)) lines in
  {| width := array_max widths * scale_of (box_width g);
     height := (fst (fst (_text_line g t fmetrics)) * n + line_spacing * (n - 1))
               * scale_of (box_height g) |}.

Definition painted_corner (g : BoxFields) (t : TextFields) : Q * Q :=
  TextBox_computed_position g t (painted_size g t) (font_metrics (font t))
    (length (JS.split (text t) newline)).

(** The distance from a line to the next. *)
Definition line_step (g : BoxFields) (t : TextFields) : Q :=
  let fmetrics := font_metrics (font t) in
  fst (fst (_text_line g t fmetrics)) + (line_height t - 1) * fm_height fmetrics.

End PaintedBox.


(** Two lines of text, the second of two words, and boxes that align them
    to the right, rest them on their baseline, or justify them. *)
Definition sample_lines : TextFields :=
  {| text := JS.lit "ab" ++ newline :: JS.lit "c d"; color := JS.lit "black";
     font := JS.lit "serif"; line_height := 1; _visual_align := Left |}.

Definition sample_aligned (a : Align) (v : VAnchor) : BoxFields :=
  {| _position := {| sx := 10; sy := 20; x_anchor := None; y_anchor := None |};
     _angle := None;
     box_width := None;
     box_height := None;
     font_size_scale := 1;
     text_height_metric := None;
     align := a;
     _base_font_size := 13;
     _x_anchor := Left;
     _y_anchor := v |}.

(** An SVG whose style holds a declaration without a colon, and an engine
    that converts everything to it. *)
Definition sample_bare_svg : SVGElement :=
  {| outerHTML := JS.lit "<svg></svg>"; heightEx := 2; widthEx := 3;
     style := Some (JS.lit "vertical-align") |}.

Definition sample_bare_engine : MathJaxT :=
  {| find_tex := fun _ => [];
     tex2svg := fun _ _ _ => Some {| children := [sample_bare_svg] |};
     mathml2svg := fun _ _ => Some {| children := [sample_bare_svg] |} |}.
(* ================================================================== *)
(** * Properties *)

(** ** Strings *)

















Lemma TextBox_size_height `{Services} (g : BoxFields) (t : TextFields) :
  height (TextBox_size g t)
  = if JS.eqb (text t) [] then 0%Q
    else
      let fmetrics := font_metrics (font t) in
      let n := inject_Z (Z.of_nat (length (JS.split (text t) newline))) in
      ((fst (fst (_text_line g t fmetrics)) * n
        + (line_height t - 1) * fm_height fmetrics * (n - 1))
       * scale_of (box_height g))%Q.
Proof.
  unfold TextBox_size.
  destruct (_text_line g t (font_metrics (font t))) as [[h a] d].
  reflexivity.
Qed.

(** C10. A [TextBox] of the empty text is classified [cap], the test of its
    characters holding of none, while its [_size()] has height 0. *)
Theorem empty_TextBox_cap_and_flat `{Services} (g : BoxFields) (t : TextFields) :
  text t = [] ->
  infer_text_height (TextBox g t) = TextHeightMetric.cap
  /\ height (_size (TextBox g t)) = 0%Q.
Proof.
  intros Ht. split.
  - cbn [infer_text_height]. unfold TextBox_infer_text_height. rewrite Ht.
    reflexivity.
  - cbn [_size]. rewrite TextBox_size_height, Ht. reflexivity.
Qed.

Lemma empty_TextBox_cap_and_flat_witness :
  text (new_TextFields []) = []
  /\ infer_text_height (new_TextBox []) = TextHeightMetric.cap
  /\ height (_size (H := sample_services) (new_TextBox [])) = 0%Q.
Proof.
  split; [reflexivity|].
  apply (empty_TextBox_cap_and_flat (H := sample_services)
           new_GraphicsBox (new_TextFields [])).
  reflexivity.
Defined.


(** ** The styling of MathML *)

(** Without an opening tag that the pattern finds, the text comes back
    trimmed and nothing more. *)
Lemma MathML_styled_text_no_open `{Services} (text color : list Z) :
  Regex.String_match (JS.trim text) math_open_re = None ->
  MathML_styled_text text color = JS.trim text.
Proof. intros Hno. unfold MathML_styled_text. rewrite Hno. reflexivity. Qed.

(** Without a closing tag that the pattern finds, as well. *)
Lemma MathML_styled_text_no_close `{Services} (text color matched : list Z) :
  Regex.String_match (JS.trim text) math_open_re = Some matched ->
  Regex.String_match
    (insert_text_on_position (JS.trim text)
       (JS.indexOf (JS.trim text) matched + Z.of_nat (length matched))%Z
       (JS.lit "<mstyle displaystyle=" ++ quote ++ JS.lit "true" ++ quote
          ++ JS.lit " mathcolor=" ++ quote ++ color2hexrgb color ++ quote
          ++ JS.lit ">"))
    math_close_re = None ->
  MathML_styled_text text color = JS.trim text.
Proof.
  intros Hopen Hclose. unfold MathML_styled_text. rewrite Hopen, Hclose.
  reflexivity.
Qed.

(** C6, on the text [<math><mi>x</mi></math>] in the colour [#ff0000]: the
    opening pattern runs to the first [>] that follows a character other than
    [?], which is the end of [<mi>], so the wrapper opens after [<mi>] and
    not right after [<math>]. *)
Theorem MathML_styled_text_bare_root :
  let styled :=
    MathML_styled_text (H := sample_services)
      (JS.lit "<math><mi>x</mi></math>") (JS.lit "#ff0000") in
  Regex.String_match (JS.lit "<math><mi>x</mi></math>") math_open_re
  = Some (JS.lit "<math><mi>")
  /\ styled
     = JS.lit "<math><mi><mstyle displaystyle=" ++ quote ++ JS.lit "true"
         ++ quote ++ JS.lit " mathcolor=" ++ quote ++ JS.lit "#ff0000"
         ++ quote ++ JS.lit ">x</mi></mstyle></math>"
  /\ styled
     <> JS.lit "<math><mstyle displaystyle=" ++ quote ++ JS.lit "true"
          ++ quote ++ JS.lit " mathcolor=" ++ quote ++ JS.lit "#ff0000"
          ++ quote ++ JS.lit "><mi>x</mi></mstyle></math>".
Proof.
  cbv zeta. split; [vm_compute; reflexivity|].
  split; [vm_compute; reflexivity|].
  vm_compute. discriminate.
Qed.

(** ** Parsing *)

Lemma slice_from_zero (s : list Z) : JS.slice_from s 0 = s.
Proof.
  unfold JS.slice_from, JS.slice_index. cbn [Z.ltb Z.compare Z.to_nat Nat.min].
  reflexivity.
Qed.

(** C3, amended. When the provider has its engine and the engine finds no
    math in a text, the container built of the parts of a text that is not
    empty holds one item, a [TextBox] of that text; the container of the
    empty text holds none. While the provider has no engine, the container
    holds no item, whatever the text. *)
Theorem parse_math_parts_no_math (mj : MathJaxT) (text : list Z) :
  find_tex mj text = [] ->
  (text <> [] ->
   new_GraphicsContainer (parse_math_parts (Some mj) text)
   = new_GraphicsContainer [new_TextBox text])
  /\ (text = [] ->
      new_GraphicsContainer (parse_math_parts (Some mj) text)
      = new_GraphicsContainer [])
  /\ new_GraphicsContainer (parse_math_parts None text)
     = new_GraphicsContainer [].
Proof.
  intros Hnone. unfold parse_math_parts. rewrite Hnone. cbn [fold_left].
  split; [|split].
  - intros Hne. destruct text as [|a text]; [congruence|].
    assert (Hlt : (0 <? Z.of_nat (length (a :: text)))%Z = true).
    { apply Z.ltb_lt. cbn [length]. lia. }
    rewrite Hlt, slice_from_zero. reflexivity.
  - intros ->. reflexivity.
  - reflexivity.
Qed.

Lemma parse_math_parts_no_math_witness :
  find_tex sample_engine (JS.lit "E") = []
  /\ JS.lit "E" <> []
  /\ new_GraphicsContainer (parse_math_parts (Some sample_engine) (JS.lit "E"))
     = new_GraphicsContainer [new_TextBox (JS.lit "E")]
  /\ new_GraphicsContainer (parse_math_parts None (JS.lit "E"))
     = new_GraphicsContainer [].
Proof.
  split; [reflexivity|]. split; [discriminate|].
  destruct (parse_math_parts_no_math sample_engine (JS.lit "E") eq_refl)
    as (Hone & _ & Hnone).
  split; [apply Hone; discriminate | exact Hnone].
Defined.

(** C3 as stated fails on the empty text: no math is found in it, and its
    parts are not one [TextBox]. It fails as well on every text while the
    provider has no engine: nothing finds math in the text then, and the
    text has no parts. *)
Lemma parse_math_parts_empty_text :
  find_tex sample_engine [] = []
  /\ new_GraphicsContainer (parse_math_parts (Some sample_engine) [])
     = new_GraphicsContainer []
  /\ ~ (exists g t,
         new_GraphicsContainer (parse_math_parts (Some sample_engine) [])
         = new_GraphicsContainer [TextBox g t]
         /\ text t = [])
  /\ new_GraphicsContainer (parse_math_parts None (JS.lit "E"))
     = new_GraphicsContainer []
  /\ new_GraphicsContainer (parse_math_parts None (JS.lit "E"))
     <> new_GraphicsContainer [new_TextBox (JS.lit "E")].
Proof.
  split; [reflexivity|]. split; [reflexivity|]. split.
  - intros (g & t & Hparts & _). vm_compute in Hparts. discriminate.
  - split; [reflexivity | discriminate].
Qed.

(** ** Sizes *)

Section Sizes.
Context `{Services}.
Local Open Scope Q_scope.

Lemma container_size_from (sizes : list Size) (acc : Size) :
  let total :=
    fold_left
      (fun acc size =>
         {| width := width acc + width size;
            height := Qmax (height acc) (height size) |})
      sizes acc in
  width total == width acc + sum_of (map width sizes)
  /\ height total
     == match sizes with
        | [] => height acc
        | s :: sizes' =>
            Qmax (height acc) (largest_of (height s) (map height sizes'))
        end.
Proof.
  cbv zeta. revert acc. induction sizes as [|s sizes IH]; intros acc.
  - cbn. split; [lra | reflexivity].
  - cbn [fold_left map sum_of fold_right].
    destruct (IH {| width := width acc + width s;
                    height := Qmax (height acc) (height s) |}) as [IHw IHh].
    split.
    + rewrite IHw. cbn [width]. fold (sum_of (map width sizes)). lra.
    + rewrite IHh. cbn [height]. destruct sizes as [|s' sizes'].
      * reflexivity.
      * cbn [map largest_of]. rewrite Q.max_assoc. reflexivity.
Qed.

Lemma largest_of_upper (first : Q) (others : list Q) (v : Q) :
  In v (first :: others) -> v <= largest_of first others.
Proof.
  revert first. induction others as [|w others IH]; intros first Hin.
  - destruct Hin as [->|[]]. apply Qle_refl.
  - cbn [largest_of]. destruct Hin as [->|Hin].
    + apply Q.le_max_l.
    + eapply Qle_trans; [apply IH, Hin | apply Q.le_max_r].
Qed.

(** C4, amended. The width of a container with items is the sum of the
    widths of its items. Its height is the largest of their heights and of 0,
    with which the loop starts; that is the largest of their heights as soon
    as one of them is not negative. *)
Theorem GraphicsContainer_size (g : BoxFields) (first : GraphicsBox)
    (rest : list GraphicsBox) :
  let items := first :: rest in
  let tallest :=
    largest_of (height (_size first)) (map (fun item => height (_size item)) rest) in
  width (_size (GraphicsContainer g items))
  == sum_of (map (fun item => width (_size item)) items)
  /\ height (_size (GraphicsContainer g items)) == Qmax 0 tallest
  /\ (Exists (fun item => 0 <= height (_size item)) items ->
      height (_size (GraphicsContainer g items)) == tallest).
Proof.
  cbv zeta. cbn [_size].
  destruct (container_size_from (map _size (first :: rest))
              {| width := 0; height := 0 |}) as [Hw Hh].
  cbn [map width height] in Hw, Hh. rewrite !map_map in Hw, Hh.
  assert (Hheight :
    height (container_size (_size first :: map _size rest))
    == Qmax 0 (largest_of (height (_size first))
                 (map (fun item => height (_size item)) rest))).
  { exact Hh. }
  split; [|split].
  - unfold container_size. cbn [map]. rewrite Hw. cbn [map sum_of fold_right].
    lra.
  - exact Hheight.
  - intros Hsome. cbn [map] in *. rewrite Hheight. apply Q.max_r.
    apply List.Exists_exists in Hsome as (item & Hin & Hpos).
    eapply Qle_trans; [exact Hpos|].
    apply largest_of_upper.
    exact (in_map (fun it => height (_size it)) (first :: rest) item Hin).
Qed.

End Sizes.

Lemma GraphicsContainer_size_witness :
  Exists (fun item => (0 <= height (_size (H := sample_services) item))%Q)
    [new_TextBox (JS.lit "ab"); sunk_box]
  /\ (width (_size (H := sample_services)
               (GraphicsContainer new_GraphicsBox
                  [new_TextBox (JS.lit "ab"); sunk_box])) == 3)%Q
  /\ (height (_size (H := sample_services)
                (GraphicsContainer new_GraphicsBox
                   [new_TextBox (JS.lit "ab"); sunk_box])) == 10)%Q.
Proof.
  assert (HE : Exists
            (fun item => (0 <= height (_size (H := sample_services) item))%Q)
            [new_TextBox (JS.lit "ab"); sunk_box]).
  { apply Exists_cons_hd. vm_compute. discriminate. }
  split; [exact HE|].
  destruct (GraphicsContainer_size (H := sample_services) new_GraphicsBox
              (new_TextBox (JS.lit "ab")) [sunk_box]) as (Hw & _ & Hh).
  split.
  - rewrite Hw. vm_compute. reflexivity.
  - rewrite (Hh HE). vm_compute. reflexivity.
Defined.

(** C4 as stated fails on a container whose only item has a negative
    height: the container is 0 high, and the item is -10 high. *)
Lemma GraphicsContainer_size_sunk :
  [sunk_box] <> []
  /\ (height (_size (H := sample_services) sunk_box) == -10)%Q
  /\ ~ (height (_size (H := sample_services)
                  (GraphicsContainer new_GraphicsBox [sunk_box]))
        == largest_of (height (_size (H := sample_services) sunk_box)) [])%Q.
Proof.
  split; [discriminate|]. split; [vm_compute; reflexivity|].
  vm_compute. discriminate.
Qed.

(** ** Positions *)

(** Induction over a box and the boxes in it. *)
Lemma GraphicsBox_nested_ind (P : GraphicsBox -> Prop) :
  (forall g t, P (TextBox g t)) ->
  (forall g t i, P (ImageTextBox g t i)) ->
  (forall g base expo, P base -> P expo -> P (BaseExpo g base expo)) ->
  (forall g items, List.Forall P items -> P (GraphicsContainer g items)) ->
  forall b, P b.
Proof.
  intros HT HI HB HC. fix IH 1. intros [g t|g t i|g base expo|g items].
  - apply HT.
  - apply HI.
  - apply HB; apply IH.
  - apply HC. induction items as [|item items IHitems]; constructor.
    + apply IH.
    + apply IHitems.
Qed.

Section Positions.
Context `{Services}.
Local Open Scope Q_scope.

Lemma same_extent_size (b b' : GraphicsBox) :
  same_extent b b' -> size b' = size b.
Proof. intros (Hs & Ha & _). unfold size. rewrite Hs, Ha. reflexivity. Qed.

Lemma compute_items_positions_related
    (R : GraphicsBox -> GraphicsBox -> Prop)
    (place : Position -> GraphicsBox -> option GraphicsBox) (pos : Position)
    (l : list GraphicsBox) :
  List.Forall (fun item => forall q item', place q item = Some item' -> R item item') l ->
  forall before previous sx' l',
    compute_items_positions place pos before previous sx' l = Some l' ->
    List.Forall2 R l l'.
Proof.
  induction 1 as [|item l Hitem _ IH]; intros before previous sx' l' Hrun;
    cbn [compute_items_positions] in Hrun.
  - injection Hrun as <-. constructor.
  - destruct (place _ item) as [item'|] eqn:Eitem; [|discriminate].
    cbn [mbind option_bind] in Hrun.
    destruct (compute_items_positions place pos _ item' _ l) as [placed|] eqn:Erest;
      [|discriminate].
    injection Hrun as <-. constructor; [eapply Hitem, Eitem | eapply IH, Erest].
Qed.

Lemma compute_items_positions_total
    (place : Position -> GraphicsBox -> option GraphicsBox) (pos : Position)
    (l : list GraphicsBox) :
  List.Forall (fun item => forall q, is_Some (place q item)) l ->
  forall before previous sx',
    is_Some (compute_items_positions place pos before previous sx' l).
Proof.
  induction 1 as [|item l Hitem _ IH]; intros before previous sx';
    cbn [compute_items_positions].
  - eexists. reflexivity.
  - destruct (Hitem (item_position pos (sx' + width (_size previous))
                       (before ++ item :: l) item)) as [item' ->].
    cbn [mbind option_bind].
    destruct (IH (before ++ [item']) item' (sx' + width (_size previous)))
      as [placed ->].
    eexists. reflexivity.
Qed.

Lemma Forall2_map_eq {A B : Type} (f : A -> B) (l l' : list A) :
  List.Forall2 (fun a a' => f a' = f a) l l' -> map f l' = map f l.
Proof. induction 1; cbn [map]; congruence. Qed.

(** A position setter changes no size. *)
Lemma set_position_same_extent (b : GraphicsBox) :
  forall p b', set_position p b = Some b' -> same_extent b b'.
Proof.
  induction b as [g t|g t i|g base expo IHbase IHexpo|g items IHitems]
    using GraphicsBox_nested_ind; intros p b' Hset; cbn [set_position] in Hset.
  - injection Hset as <-. repeat split.
  - injection Hset as <-. repeat split.
  - destruct (set_position _ base) as [base'|] eqn:Ebase; [|discriminate].
    cbn [mbind option_bind] in Hset.
    destruct (set_position _ expo) as [expo'|] eqn:Eexpo; [|discriminate].
    injection Hset as <-.
    apply IHbase in Ebase as (Hbs & Hba & Hbh).
    apply IHexpo in Eexpo as (Hes & Hea & _).
    repeat split. cbn [_size]. rewrite Hbs, Hba, Hbh, Hes, Hea. reflexivity.
  - destruct items as [|first rest]; [discriminate|].
    apply List.Forall_cons_iff in IHitems as [IHfirst IHrest].
    destruct (set_position _ first) as [first'|] eqn:Efirst; [|discriminate].
    cbn [mbind option_bind] in Hset.
    destruct (compute_items_positions _ _ _ _ _ rest) as [rest'|] eqn:Erest;
      [|discriminate].
    injection Hset as <-.
    apply IHfirst in Efirst as (Hfs & _).
    apply (compute_items_positions_related same_extent) in Erest;
      [|eapply List.Forall_impl; [|exact IHrest]; cbv beta; eauto].
    repeat split. cbn [_size map]. rewrite Hfs. f_equal. f_equal.
    apply Forall2_map_eq. eapply List.Forall2_impl; [|exact Erest].
    intros a a' (Hs & _). exact Hs.
Qed.

(** The position of a box is the one last set. *)
Lemma set_position_position (p : Position) (b b' : GraphicsBox) :
  set_position p b = Some b' -> position b' = p.
Proof.
  destruct b as [g t|g t i|g base expo|g items]; cbn [set_position]; intros Hset.
  - injection Hset as <-. reflexivity.
  - injection Hset as <-. reflexivity.
  - destruct (set_position _ base); [|discriminate].
    cbn [mbind option_bind] in Hset.
    destruct (set_position _ expo); [|discriminate].
    injection Hset as <-. reflexivity.
  - destruct items as [|first rest]; [discriminate|].
    destruct (set_position _ first); [|discriminate].
    cbn [mbind option_bind] in Hset.
    destruct (compute_items_positions _ _ _ _ _ rest); [|discriminate].
    injection Hset as <-. reflexivity.
Qed.

(** A position setter throws only on a container without items. *)
Lemma set_position_total (b : GraphicsBox) :
  has_items b = true -> forall p, is_Some (set_position p b).
Proof.
  induction b as [g t|g t i|g base expo IHbase IHexpo|g items IHitems]
    using GraphicsBox_nested_ind; cbn [has_items set_position]; intros Hb p.
  - eexists. reflexivity.
  - eexists. reflexivity.
  - apply andb_true_iff in Hb as [Hbase Hexpo].
    destruct (IHbase Hbase
                {| sx := 0; sy := Qmax (height (size base))
                                   (_shift_scale base * height (size base)
                                    + height (size expo));
                   x_anchor := Some (XNamed Left);
                   y_anchor := Some (YNamed Bottom) |}) as [base' ->].
    cbn [mbind option_bind].
    destruct (IHexpo Hexpo
                {| sx := width (size base);
                   sy := _shift_scale base * height (size base);
                   x_anchor := Some (XNamed Left);
                   y_anchor := Some (YNamed Bottom) |}) as [expo' ->].
    eexists. reflexivity.
  - destruct items as [|first rest]; [discriminate|].
    cbn [forallb] in Hb. apply andb_true_iff in Hb as [Hfirst Hrest].
    apply List.Forall_cons_iff in IHitems as [IHfirst IHrest].
    match goal with |- is_Some (mbind _ (set_position ?q first)) =>
      destruct (IHfirst Hfirst q) as [first' ->] end.
    cbn [mbind option_bind].
    match goal with |- is_Some (mbind _ (compute_items_positions ?f ?pos ?bf ?pv ?x rest)) =>
      destruct (compute_items_positions_total f pos rest) with
        (before := bf) (previous := pv) (sx' := x) as [rest' ->] end.
    + rewrite forallb_forall in Hrest. rewrite List.Forall_forall in IHrest.
      apply List.Forall_forall. intros item Hin q. apply IHrest; auto.
    + eexists. reflexivity.
Qed.

Lemma item_position_ext (pos : Position) (sx' : Q)
    (items items1 : list GraphicsBox) (item item1 : GraphicsBox) :
  map _size items1 = map _size items -> _size item1 = _size item ->
  item_position pos sx' items1 item1 = item_position pos sx' items item.
Proof.
  intros Hitems Hitem. unfold item_position, item_sy.
  rewrite Hitems, Hitem. reflexivity.
Qed.

Lemma compute_items_positions_ext
    (place : Position -> GraphicsBox -> option GraphicsBox) (pos : Position)
    (l l1 : list GraphicsBox) :
  List.Forall2
    (fun item item1 =>
       _size item1 = _size item /\ forall q, place q item1 = place q item) l l1 ->
  forall before previous sx',
    compute_items_positions place pos before previous sx' l1
    = compute_items_positions place pos before previous sx' l.
Proof.
  induction 1 as [|item item1 l l1 [Hsize Hplace] Hrest IH];
    intros before previous sx'; [reflexivity|].
  cbn [compute_items_positions].
  assert (Hsizes : map _size l1 = map _size l).
  { apply Forall2_map_eq. eapply List.Forall2_impl; [|exact Hrest].
    intros a a1 [Ha _]. exact Ha. }
  rewrite (item_position_ext pos _ (before ++ item :: l) _ item item1), Hplace.
  - destruct (place _ item) as [item'|]; [|reflexivity].
    cbn [mbind option_bind]. rewrite IH. reflexivity.
  - rewrite !map_app. cbn [map]. rewrite Hsize, Hsizes. reflexivity.
  - exact Hsize.
Qed.

(** A position setter leaves nothing of the position set before: the box
    that a first assignment gives is, for a second one, as good as the box
    before the first. *)
Lemma set_position_overwrites (b : GraphicsBox) :
  forall p1 b1, set_position p1 b = Some b1 ->
  forall p2, set_position p2 b1 = set_position p2 b.
Proof.
  induction b as [g t|g t i|g base expo IHbase IHexpo|g items IHitems]
    using GraphicsBox_nested_ind; intros p1 b1 Hset p2.
  - injection Hset as <-. reflexivity.
  - injection Hset as <-. reflexivity.
  - cbn [set_position] in Hset.
    destruct (set_position _ base) as [base1|] eqn:Ebase; [|discriminate].
    cbn [mbind option_bind] in Hset.
    destruct (set_position _ expo) as [expo1|] eqn:Eexpo; [|discriminate].
    injection Hset as <-.
    pose proof (set_position_same_extent _ _ _ Ebase) as Hb.
    pose proof (set_position_same_extent _ _ _ Eexpo) as He.
    cbn [set_position].
    rewrite (same_extent_size _ _ Hb), (same_extent_size _ _ He).
    destruct Hb as (_ & _ & ->).
    rewrite (IHbase _ _ Ebase), (IHexpo _ _ Eexpo). reflexivity.
  - destruct items as [|first rest]; [discriminate|].
    cbn [set_position] in Hset.
    apply List.Forall_cons_iff in IHitems as [IHfirst IHrest].
    destruct (set_position _ first) as [first1|] eqn:Efirst; [|discriminate].
    cbn [mbind option_bind] in Hset.
    destruct (compute_items_positions _ _ _ _ _ rest) as [rest1|] eqn:Erest;
      [|discriminate].
    injection Hset as <-.
    pose proof (set_position_same_extent _ _ _ Efirst) as (Hfirst & _).
    assert (Hrel : List.Forall2
              (fun item item1 =>
                 _size item1 = _size item
                 /\ forall q, set_position q item1 = set_position q item)
              rest rest1).
    { eapply (compute_items_positions_related _ _ _ rest); [|exact Erest].
      eapply List.Forall_impl; [|exact IHrest].
      intros item IHitem q item1 Hitem1. split.
      - apply (set_position_same_extent _ _ _ Hitem1).
      - intros q'. eapply IHitem, Hitem1. }
    assert (Hsizes : map _size rest1 = map _size rest).
    { apply Forall2_map_eq. eapply List.Forall2_impl; [|exact Hrel].
      intros a a1 [Ha _]. exact Ha. }
    cbn [set_position map]. rewrite Hfirst, Hsizes.
    change (put_position p2 (put_position p1 g)) with (put_position p2 g).
    rewrite (item_position_ext _ _ (first :: rest) (first1 :: rest1) first first1)
      by (cbn [map]; congruence).
    rewrite (IHfirst _ _ Efirst).
    match goal with |- context [set_position ?q first] =>
      destruct (set_position q first) as [first'|] end; [|reflexivity].
    cbn [mbind option_bind].
    rewrite (compute_items_positions_ext _ _ rest rest1) by exact Hrel.
    reflexivity.
Qed.

End Positions.

(** ** Base and exponent *)

Lemma split_length (s : list Z) (sep : Z) :
  length (JS.split s sep) = S (length (List.filter (Z.eqb sep) s)).
Proof.
  induction s as [|a s IH]; [reflexivity|].
  cbn [JS.split List.filter]. unfold JS.unit_eqb.
  rewrite (Z.eqb_sym sep a). destruct (Z.eqb a sep).
  - cbn [length]. rewrite IH. reflexivity.
  - destruct (JS.split s sep) as [|piece pieces]; [discriminate IH|].
    cbn [length] in *. exact IH.
Qed.

(** A text is of one line exactly when it has no newline. *)
Lemma nlines_one (t : TextFields) :
  Nat.eqb (nlines t) 1 = true <-> ~ In newline (text t).
Proof.
  unfold nlines. rewrite split_length, Nat.eqb_eq. split.
  - intros Hlen Hin.
    assert (Hf : In newline (List.filter (Z.eqb newline) (text t))).
    { apply List.filter_In. split; [exact Hin | apply Z.eqb_refl]. }
    destruct (List.filter (Z.eqb newline) (text t)); [destruct Hf | discriminate].
  - intros Hno. destruct (List.filter (Z.eqb newline) (text t)) as [|c l] eqn:E;
      [reflexivity|].
    assert (Hc : In c (List.filter (Z.eqb newline) (text t))) by (rewrite E; left; reflexivity).
    apply List.filter_In in Hc as [Hin Heq]. apply Z.eqb_eq in Heq. subst c.
    contradiction.
Qed.

Section BaseAndExponent.
Context `{Services}.
Local Open Scope Q_scope.

(** C5. With [shift = shift_scale * base.height], where the scale is
    [x_height / cap_height] of the font of a base that is a text box of one
    line and [2/3] of any other base: the size of a [BaseExpo] is the sum of
    the widths by the larger of the base's height and of the shift plus the
    exponent's height; setting its position at once puts the base, by its
    bottom left, at [sx = 0] and [sy] that height, and the exponent, by its
    bottom left, at [sx] the base's width and [sy] the shift; and a base 10
    high with scale 0.6 and an exponent 8 high make a box 14 high. *)
Theorem BaseExpo_layout (g : BoxFields) (base expo : GraphicsBox) (p : Position) :
  let bs := size base in
  let es := size expo in
  let shift := _shift_scale base * height bs in
  let tall := Qmax (height bs) (shift + height es) in
  (forall t, text_fields base = Some t -> ~ In newline (text t) ->
     _shift_scale base
     = x_height (font_metrics (font t)) / cap_height (font_metrics (font t)))
  /\ (forall t, text_fields base = Some t -> In newline (text t) ->
        _shift_scale base = 2 # 3)
  /\ (text_fields base = None -> _shift_scale base = 2 # 3)
  /\ _size (BaseExpo g base expo)
     = {| width := width bs + width es; height := tall |}
  /\ (has_items base = true -> has_items expo = true ->
      exists base' expo',
        set_position p (BaseExpo g base expo)
        = Some (BaseExpo (put_position p g) base' expo')
        /\ position base'
           = {| sx := 0; sy := tall;
                x_anchor := Some (XNamed Left); y_anchor := Some (YNamed Bottom) |}
        /\ position expo'
           = {| sx := width bs; sy := shift;
                x_anchor := Some (XNamed Left); y_anchor := Some (YNamed Bottom) |}
        /\ size base' = bs /\ size expo' = es)
  /\ (height bs == 10 -> _shift_scale base == 3 # 5 -> height es == 8 ->
      height (_size (BaseExpo g base expo)) == 14).
Proof.
  cbv zeta. split; [|split; [|split; [|split; [|split]]]].
  - intros t Ht Hone. apply nlines_one in Hone.
    destruct base; try discriminate Ht; injection Ht as ->;
      cbn [_shift_scale]; rewrite Hone; reflexivity.
  - intros t Ht Hmany.
    assert (Hn : Nat.eqb (nlines t) 1 = false).
    { destruct (Nat.eqb (nlines t) 1) eqn:E; [|reflexivity].
      apply nlines_one in E. contradiction. }
    destruct base; try discriminate Ht; injection Ht as ->;
      cbn [_shift_scale]; rewrite Hn; reflexivity.
  - intros Hnone. destruct base; try discriminate Hnone; reflexivity.
  - reflexivity.
  - intros Hbase Hexpo.
    destruct (set_position_total base Hbase
                {| sx := 0;
                   sy := Qmax (height (size base))
                           (_shift_scale base * height (size base)
                            + height (size expo));
                   x_anchor := Some (XNamed Left);
                   y_anchor := Some (YNamed Bottom) |}) as [base' Ebase].
    destruct (set_position_total expo Hexpo
                {| sx := width (size base);
                   sy := _shift_scale base * height (size base);
                   x_anchor := Some (XNamed Left);
                   y_anchor := Some (YNamed Bottom) |}) as [expo' Eexpo].
    exists base', expo'. cbn [set_position]. rewrite Ebase.
    cbn [mbind option_bind]. rewrite Eexpo. cbn [mbind option_bind].
    split; [reflexivity|].
    split; [eapply set_position_position, Ebase|].
    split; [eapply set_position_position, Eexpo|].
    split; apply same_extent_size; eapply set_position_same_extent; eassumption.
  - intros Hb Hs He. cbn [_size height]. fold (size base). fold (size expo).
    assert (Hsum : _shift_scale base * height (size base) + height (size expo) == 14).
    { rewrite Hb, Hs, He. reflexivity. }
    rewrite Q.max_r; [exact Hsum|]. rewrite Hsum, Hb. discriminate.
Qed.

End BaseAndExponent.

Lemma BaseExpo_layout_witness :
  (height (_size (H := sample_services)
             (BaseExpo new_GraphicsBox sample_base sample_expo)) == 14)%Q
  /\ exists base' expo',
       set_position (H := sample_services)
         {| sx := 5; sy := 7; x_anchor := None; y_anchor := None |}
         (BaseExpo new_GraphicsBox sample_base sample_expo)
       = Some (BaseExpo
                 (put_position
                    {| sx := 5; sy := 7; x_anchor := None; y_anchor := None |}
                    new_GraphicsBox) base' expo')
       /\ (sy (position base') == 14)%Q.
Proof.
  destruct (BaseExpo_layout (H := sample_services) new_GraphicsBox
              sample_base sample_expo
              {| sx := 5; sy := 7; x_anchor := None; y_anchor := None |})
    as (Hone & _ & _ & _ & Hset & Hscene).
  split.
  - apply Hscene; vm_compute; reflexivity.
  - destruct (Hset eq_refl eq_refl) as (base' & expo' & Heq & Hb & _).
    exists base', expo'. split; [exact Heq|]. rewrite Hb. vm_compute. reflexivity.
Defined.

(** ** Visuals *)

Lemma max_by_spec {T : Type} (array : list T) (key : T -> Z) (best : T) :
  max_by array key = Some best ->
  In best array /\ (forall item, In item array -> (key item <= key best)%Z).
Proof.
  destruct array as [|first rest]; [discriminate|].
  cbn [max_by]. intros [= <-].
  assert (G : forall rest start,
            let best :=
              fold_left
                (fun result value =>
                   if Z.ltb (key result) (key value) then value else result)
                rest start in
            (best = start \/ In best rest)
            /\ (key start <= key best)%Z
            /\ (forall item, In item rest -> (key item <= key best)%Z)).
  { clear. induction rest as [|value rest IH]; intros start; cbv zeta.
    - cbn. split; [left; reflexivity|]. split; [lia | intros ? []].
    - cbn [fold_left].
      destruct (IH (if Z.ltb (key start) (key value) then value else start))
        as (Hin & Hstart & Hall).
      destruct (Z.ltb_spec (key start) (key value)) as [Hlt|Hge].
      + split; [right; destruct Hin as [->|Hin]; [left; reflexivity | right; exact Hin]|].
        split; [lia|]. intros item [<-|Hitem]; [exact Hstart | apply Hall, Hitem].
      + split; [destruct Hin as [->|Hin]; [left; reflexivity | right; right; exact Hin]|].
        split; [exact Hstart|].
        intros item [<-|Hitem]; [lia | apply Hall, Hitem]. }
  destruct (G rest first) as (Hin & Hfirst & Hall). split.
  - destruct Hin as [->|Hin]; [left; reflexivity | right; exact Hin].
  - intros item [<-|Hitem]; [exact Hfirst | apply Hall, Hitem].
Qed.

Lemma for_each_related (R : GraphicsBox -> GraphicsBox -> Prop)
    (f : GraphicsBox -> option GraphicsBox) (l : list GraphicsBox) :
  List.Forall (fun item => forall item', f item = Some item' -> R item item') l ->
  forall l', for_each f l = Some l' -> List.Forall2 R l l'.
Proof.
  induction 1 as [|item l Hitem _ IH]; intros l' Hrun; cbn [for_each] in Hrun.
  - injection Hrun as <-. constructor.
  - destruct (f item) as [item'|] eqn:Eitem; [|discriminate].
    cbn [mbind option_bind] in Hrun.
    destruct (for_each f l) as [done|]; [|discriminate].
    injection Hrun as <-. constructor; [apply Hitem | apply IH]; reflexivity.
Qed.

Lemma for_each_total (f : GraphicsBox -> option GraphicsBox)
    (l : list GraphicsBox) :
  List.Forall (fun item => is_Some (f item)) l -> is_Some (for_each f l).
Proof.
  induction 1 as [|item l [item' Hitem] _ [done IH]]; cbn [for_each].
  - eexists. reflexivity.
  - rewrite Hitem. cbn [mbind option_bind]. rewrite IH. eexists. reflexivity.
Qed.

Lemma with_fields_infer_text_height (f : BoxFields -> BoxFields) (b : GraphicsBox) :
  infer_text_height (with_fields f b) = infer_text_height b.
Proof. destruct b; reflexivity. Qed.

Section Visuals.
Context `{Services}.

Lemma TextBox_set_visuals_text (v : TextValues) (g : BoxFields) (t : TextFields) :
  text (snd (TextBox_set_visuals v g t)) = text t.
Proof. reflexivity. Qed.

(** The visuals change no text, so the metric a box infers stays. *)
Lemma set_visuals_infer_text_height (b : GraphicsBox) :
  forall scale v b',
    set_visuals_scaled scale v b = Some b' ->
    infer_text_height b' = infer_text_height b.
Proof.
  induction b as [g t|g t i|g base expo IHbase IHexpo|g items IHitems]
    using GraphicsBox_nested_ind; intros scale v b' Hset;
    cbn [set_visuals_scaled] in Hset.
  - destruct (TextBox_set_visuals v _ t) as [g' t'] eqn:E.
    injection Hset as <-. cbn [infer_text_height].
    unfold TextBox_infer_text_height.
    change t' with (snd (g', t')). rewrite <- E, TextBox_set_visuals_text.
    reflexivity.
  - destruct (TextBox_set_visuals v _ t) as [g' t'] eqn:E.
    injection Hset as <-. cbn [infer_text_height].
    unfold TextBox_infer_text_height.
    change t' with (snd (g', t')). rewrite <- E, TextBox_set_visuals_text.
    reflexivity.
  - destruct (set_visuals_scaled None v base) as [base'|] eqn:Ebase; [|discriminate].
    cbn [mbind option_bind] in Hset.
    destruct (set_visuals_scaled _ v expo) as [expo'|]; [|discriminate].
    injection Hset as <-. cbn [infer_text_height]. eapply IHbase, Ebase.
  - destruct (for_each _ items) as [items'|]; [|discriminate].
    cbn [mbind option_bind] in Hset.
    destruct (max_by _ metric_map) as [common|]; [|discriminate].
    injection Hset as <-. reflexivity.
Qed.

(** The visuals setter throws only on a container without items. *)
Lemma set_visuals_total (b : GraphicsBox) :
  has_items b = true ->
  forall scale v, is_Some (set_visuals_scaled scale v b).
Proof.
  induction b as [g t|g t i|g base expo IHbase IHexpo|g items IHitems]
    using GraphicsBox_nested_ind; cbn [has_items]; intros Hb scale v;
    cbn [set_visuals_scaled].
  - destruct (TextBox_set_visuals v _ t). eexists. reflexivity.
  - destruct (TextBox_set_visuals v _ t). eexists. reflexivity.
  - apply andb_true_iff in Hb as [Hbase Hexpo].
    destruct (IHbase Hbase None v) as [base' ->]. cbn [mbind option_bind].
    destruct (IHexpo Hexpo (Some (7 # 10)) v) as [expo' ->].
    eexists. reflexivity.
  - destruct items as [|first rest]; [discriminate|].
    destruct (for_each_total (fun item => set_visuals_scaled None v item)
                (first :: rest)) as [items' Hitems'].
    { rewrite forallb_forall in Hb. rewrite List.Forall_forall in IHitems.
      apply List.Forall_forall. intros item Hin. apply IHitems; auto. }
    rewrite Hitems'. cbn [mbind option_bind].
    destruct items' as [|first' rest'].
    + cbn [for_each] in Hitems'.
      destruct (set_visuals_scaled None v first); [|discriminate].
      cbn [mbind option_bind] in Hitems'.
      destruct (for_each _ rest); discriminate.
    + cbn [map max_by mbind option_bind]. eexists. reflexivity.
Qed.

(** The scale a [BaseExpo] gives its exponent is set on the exponent before
    the visuals setter of the exponent runs. *)
Lemma set_visuals_scaled_eq (s : Q) (v : TextValues) (b : GraphicsBox) :
  set_visuals_scaled (Some s) v b
  = set_visuals_scaled None v (with_fields (put_font_size_scale s) b).
Proof. destruct b; reflexivity. Qed.

(** C8. After the visuals of a container with items are set, every item has
    the same [text_height_metric]: the one of the largest rank among the
    metrics the items infer, the ranks rising from [x] through [cap],
    [ascent], [x_descent] and [cap_descent] to [ascent_descent]. *)
Theorem GraphicsContainer_visuals_common (g : BoxFields)
    (items : list GraphicsBox) (v : TextValues) :
  items <> [] ->
  forallb has_items items = true ->
  exists common items',
    set_visuals v (GraphicsContainer g items) = Some (GraphicsContainer g items')
    /\ length items' = length items
    /\ map infer_text_height items' = map infer_text_height items
    /\ In common (map infer_text_height items)
    /\ (forall item, In item items ->
          (metric_map (infer_text_height item) <= metric_map common)%Z)
    /\ (forall item', In item' items' ->
          text_height_metric (fields item') = Some common)
    /\ (metric_map TextHeightMetric.x < metric_map TextHeightMetric.cap
        < metric_map TextHeightMetric.ascent)%Z
    /\ (metric_map TextHeightMetric.ascent < metric_map TextHeightMetric.x_descent
        < metric_map TextHeightMetric.cap_descent)%Z
    /\ (metric_map TextHeightMetric.cap_descent
        < metric_map TextHeightMetric.ascent_descent)%Z.
Proof.
  intros Hne Hitems.
  assert (Hbox : has_items (GraphicsContainer g items) = true).
  { cbn [has_items]. destruct items; [congruence | exact Hitems]. }
  destruct (set_visuals_total _ Hbox None v) as [b' Hset].
  unfold set_visuals. rewrite Hset. cbn [set_visuals_scaled] in Hset.
  destruct (for_each _ items) as [styled|] eqn:Eeach; [|discriminate].
  cbn [mbind option_bind] in Hset.
  destruct (max_by _ metric_map) as [common|] eqn:Emax; [|discriminate].
  injection Hset as <-.
  assert (Hrel : List.Forall2
                   (fun item item' => infer_text_height item' = infer_text_height item)
                   items styled).
  { eapply for_each_related; [|exact Eeach].
    apply List.Forall_forall. intros item _ item' Hitem.
    eapply set_visuals_infer_text_height, Hitem. }
  assert (Hinfer : map infer_text_height styled = map infer_text_height items).
  { apply Forall2_map_eq, Hrel. }
  rewrite Hinfer in Emax. apply max_by_spec in Emax as [Hin Hmax].
  exists common, (map (with_fields (put_text_height_metric common)) styled).
  split; [reflexivity|].
  split; [rewrite length_map; symmetry; eapply List.Forall2_length, Hrel|].
  split.
  { rewrite map_map. rewrite <- Hinfer. apply map_ext.
    intros item. apply with_fields_infer_text_height. }
  split; [exact Hin|].
  split.
  { intros item Hitem. apply Hmax. apply in_map. exact Hitem. }
  split.
  { intros item' Hitem'. apply in_map_iff in Hitem' as (item & <- & _).
    destruct item; reflexivity. }
  cbn. lia.
Qed.

End Visuals.

Lemma GraphicsContainer_visuals_common_witness :
  exists items',
    set_visuals (H := sample_services) sample_values
      (GraphicsContainer new_GraphicsBox
         [new_TextBox (JS.lit "12"); new_ImageTextBox (JS.lit "x^2")])
    = Some (GraphicsContainer new_GraphicsBox items')
    /\ forall item', In item' items' ->
         text_height_metric (fields item') = Some TextHeightMetric.ascent_descent.
Proof.
  destruct (GraphicsContainer_visuals_common (H := sample_services)
              new_GraphicsBox
              [new_TextBox (JS.lit "12"); new_ImageTextBox (JS.lit "x^2")]
              sample_values)
    as (common & items' & Hset & _ & _ & Hin & Hmax & Hall & _).
  - discriminate.
  - reflexivity.
  - exists items'. split; [exact Hset|].
    assert (Hcommon : common = TextHeightMetric.ascent_descent).
    { specialize (Hmax (new_ImageTextBox (JS.lit "x^2"))
                    (or_intror (or_introl eq_refl))).
      vm_compute in Hmax. destruct common; try reflexivity;
        exfalso; apply Hmax; reflexivity. }
    rewrite <- Hcommon. exact Hall.
Defined.

(** ** Loading images *)

Section Loading.
Context `{Services}.

(** The four ways [load_image] ends its first turn. *)
Lemma load_image_cases (i : nat) (s : State) :
  load_image i s = wait_for_provider i s
  \/ load_image i s = finish s
  \/ load_image i s = s
  \/ exists svg_element, load_image i s = start_decode i svg_element s.
Proof.
  unfold load_image.
  destruct (negb (has_images_loaded s) && _); [auto|].
  destruct (negb (_has_finished s) && _); [auto|].
  destruct (items s !! i) as [[g t|g t im|g base expo|g its]|]; auto.
  destruct (_process_text s g t) as [el|]; [|auto].
  destruct (children el) as [|svg_element rest]; [auto|].
  right; right; right. exists svg_element. reflexivity.
Qed.

Lemma image_item_not_loaded (s : State) (i : nat) (g : BoxFields)
    (t : TextFields) (im : ImageFields) :
  items s !! i = Some (ImageTextBox g t im) -> image im = None ->
  has_images_loaded s = false.
Proof.
  intros Hitem Hnone. unfold has_images_loaded.
  destruct (forallb _ _) eqn:E; [|reflexivity].
  rewrite forallb_forall in E.
  specialize (E (ImageTextBox g t im)).
  assert (Hin : In (ImageTextBox g t im)
                  (filter (fun b => is_image_box b = true) (items s))).
  { apply list_elem_of_In, list_elem_of_filter. split; [reflexivity|].
    eapply list_elem_of_lookup_2, Hitem. }
  specialize (E Hin). cbn [image_of] in E. rewrite Hnone in E.
  apply bool_decide_eq_true in E. destruct E as [? E]. discriminate E.
Qed.

(** C1, amended. The paint of an image box without an image calls
    [load_image] once. While the provider has not started or is loading,
    the call starts no conversion: it connects itself to the readiness of the
    provider and marks the pipeline as not finished. Once the provider is
    ready nothing holds a second call back: each paint whose conversion gives
    an SVG starts a decode of its own, so that two paints before any decode
    is over leave two decodes more in flight for the box. *)
Theorem paint_without_image (s : State) (i : nat) (g : BoxFields)
    (t : TextFields) (im : ImageFields) :
  items s !! i = Some (ImageTextBox g t im) -> image im = None ->
  paint i s = load_image i s
  /\ ((status s = not_started \/ status s = loading) ->
      pending (paint i s) = pending s
      /\ ready_callbacks (paint i s) = ready_callbacks s ++ [i]
      /\ _has_finished (paint i s) = false)
  /\ (forall el svg_element others,
        status s = ready ->
        _process_text s g t = Some el ->
        children el = svg_element :: others ->
        pending (paint i (paint i s))
        = pending s
            ++ [ {| decode_box := i; decode_svg := svg_element;
                    decode_url := url_counter s |};
                 {| decode_box := i; decode_svg := svg_element;
                    decode_url := S (url_counter s) |} ]
        /\ length (in_flight i (paint i (paint i s)))
           = (2 + length (in_flight i s))%nat).
Proof.
  intros Hitem Hnone.
  assert (Hpaint : forall s', items s' = items s -> paint i s' = load_image i s').
  { intros s' Hs'. unfold paint. rewrite Hs', Hitem, Hnone. reflexivity. }
  assert (Hloaded : forall s', items s' = items s -> has_images_loaded s' = false).
  { intros s' Hs'. eapply image_item_not_loaded; [rewrite Hs'; exact Hitem | exact Hnone]. }
  split; [apply Hpaint; reflexivity|]. split.
  - intros Hstatus. rewrite Hpaint by reflexivity. unfold load_image.
    rewrite Hloaded by reflexivity.
    destruct Hstatus as [-> | ->]; cbn; repeat split.
  - intros el svg_element others Hready Hel Hchildren.
    assert (Hstart : forall s', items s' = items s -> status s' = status s ->
              _process_text s' g t = _process_text s g t ->
              load_image i s' = start_decode i svg_element s').
    { intros s' Hs' Hst Hpt. unfold load_image.
      rewrite Hloaded, Hst, Hready by assumption. cbn [negb andb orb].
      rewrite andb_false_r, Hs', Hitem, Hpt, Hel, Hchildren. reflexivity. }
    rewrite (Hpaint s), (Hstart s) by reflexivity.
    rewrite Hpaint, Hstart by reflexivity.
    cbn [start_decode pending url_counter]. rewrite <- app_assoc.
    split; [reflexivity|].
    unfold in_flight. cbn [start_decode pending]. rewrite <- app_assoc.
    rewrite filter_app, length_app. cbn [app].
    rewrite !filter_cons_True by reflexivity. cbn [filter length].
    rewrite filter_nil. cbn [length]. lia.
Qed.

End Loading.

Lemma paint_without_image_witness :
  let s := sample_state ready (Some sample_engine) in
  pending (paint (H := sample_services) 0 (paint (H := sample_services) 0 s))
  = [ {| decode_box := 0; decode_svg := sample_svg; decode_url := 0 |};
      {| decode_box := 0; decode_svg := sample_svg; decode_url := 1 |} ]
  /\ pending (paint (H := sample_services) 0 (sample_state loading None)) = []
  /\ ready_callbacks (paint (H := sample_services) 0 (sample_state loading None))
     = [0%nat].
Proof.
  cbv zeta.
  destruct (paint_without_image (H := sample_services)
              (sample_state ready (Some sample_engine)) 0 new_GraphicsBox
              (new_TextFields (JS.lit "x"))
              {| image := None;
                 image_properties :=
                   {| ip_width := 0; ip_height := 0; v_align := 0 |} |}
              eq_refl eq_refl) as (_ & _ & Htwice).
  destruct (Htwice {| children := [sample_svg] |} sample_svg [] eq_refl eq_refl eq_refl)
    as [Hpending _].
  destruct (paint_without_image (H := sample_services)
              (sample_state loading None) 0 new_GraphicsBox
              (new_TextFields (JS.lit "x"))
              {| image := None;
                 image_properties :=
                   {| ip_width := 0; ip_height := 0; v_align := 0 |} |}
              eq_refl eq_refl) as (_ & Hwait & _).
  destruct (Hwait (or_intror eq_refl)) as (Hp & Hc & _).
  split; [exact Hpending|]. split; [exact Hp | exact Hc].
Defined.

(** C1 as stated fails on two paints of the one image box of a view whose
    provider is ready: the box still has no image, and two decodes are in
    flight for it at once. *)
Lemma paint_twice_two_decodes :
  let s := run (H := sample_services) (sample_state ready (Some sample_engine))
             [Paint 0; Paint 0] in
  image_of <$> items s = [None]
  /\ length (in_flight 0 s) = 2%nat
  /\ ~ (length (in_flight 0 s) <= 1)%nat.
Proof.
  cbv zeta. split; [reflexivity|]. split; [reflexivity|].
  change (length (in_flight 0
            (run (H := sample_services) (sample_state ready (Some sample_engine))
               [Paint 0; Paint 0]))) with 2%nat.
  lia.
Qed.

(** ** Object URLs *)

Section ObjectURLs.
Context `{Services}.

Lemma assign_image_properties_cases (d : Decode) (s : State) :
  assign_image_properties d s = None
  \/ exists items', assign_image_properties d s = Some (put_items items' s).
Proof.
  unfold assign_image_properties.
  destruct (items s !! decode_box d) as [[g t|g t im|g base expo|g its]|];
    try (right; exists (items s); destruct s; reflexivity).
  destruct (get_image_properties _ _) as [properties|]; cbn [mbind option_bind].
  - right. eexists. reflexivity.
  - left. reflexivity.
Qed.

Lemma assign_image_cases (d : Decode) (svg_image : CanvasImage) (s : State) :
  exists items', assign_image d svg_image s = put_items items' s.
Proof.
  unfold assign_image.
  destruct (items s !! decode_box d) as [[g t|g t im|g base expo|g its]|];
    try (exists (items s); destruct s; reflexivity).
  eexists. reflexivity.
Qed.

(** What the end of a decode leaves of the state, whichever way
    [get_image_properties] goes. *)
Lemma decode_resolved_frame (k : nat) (d : Decode) (svg_image : CanvasImage)
    (s : State) :
  pending s !! k = Some d ->
  let s' := decode_resolved k svg_image s in
  pending s' = delete k (pending s)
  /\ object_urls s' = object_urls s ∖ {[decode_url d]}
  /\ url_counter s' = url_counter s
  /\ status s' = status s /\ MathJax s' = MathJax s
  /\ kind s' = kind s /\ model_text s' = model_text s
  /\ container s' = container s
  /\ ready_callbacks s' = ready_callbacks s.
Proof.
  intros Hd. cbv zeta. unfold decode_resolved. rewrite Hd.
  destruct (assign_image_cases d svg_image (release k d s)) as [items1 ->].
  destruct (assign_image_properties_cases d (put_items items1 (release k d s)))
    as [-> | [items2 ->]].
  - repeat split.
  - match goal with |- context [if ?c then _ else _] => destruct c end;
      repeat split.
Qed.

(** C9. The turn of [load_image] that starts a decode makes one object URL
    for it; and whichever way a decode in flight ends, with an image or with
    a rejection, the turn that takes up after it has revoked that URL, and
    the decode is in flight no longer. *)
Theorem decode_releases_object_url (s : State) :
  (forall i svg_element,
     let s' := start_decode i svg_element s in
     (url_counter s ∈ object_urls s')
     /\ pending s'
        = pending s ++ [ {| decode_box := i; decode_svg := svg_element;
                            decode_url := url_counter s |} ])
  /\ (forall k d,
        pending s !! k = Some d ->
        (forall svg_image,
           (decode_url d ∉ object_urls (decode_resolved k svg_image s))
           /\ pending (decode_resolved k svg_image s) = delete k (pending s))
        /\ (decode_url d ∉ object_urls (decode_rejected k s))
        /\ pending (decode_rejected k s) = delete k (pending s)
        /\ items (decode_rejected k s) = items s).
Proof.
  split.
  - intros i svg_element. cbv zeta. cbn [start_decode object_urls pending].
    split; [|reflexivity].
    apply elem_of_union. left. apply elem_of_singleton. reflexivity.
  - intros k d Hd.
    assert (Hgone : forall urls : gset nat, decode_url d ∉ urls ∖ {[decode_url d]}).
    { intros urls. rewrite elem_of_difference, elem_of_singleton. tauto. }
    split; [|split].
    + intros svg_image.
      destruct (decode_resolved_frame k d svg_image s Hd) as (-> & -> & _).
      split; [apply Hgone | reflexivity].
    + unfold decode_rejected. rewrite Hd. apply Hgone.
    + unfold decode_rejected. rewrite Hd. split; reflexivity.
Qed.

Lemma urls_accounted_start (i : nat) (svg_element : SVGElement) (s : State) :
  urls_accounted s -> urls_accounted (start_decode i svg_element s).
Proof.
  intros (Hnodup & Hsame & Hold). unfold urls_accounted.
  cbn [start_decode pending object_urls url_counter].
  rewrite fmap_app. cbn [fmap list_fmap decode_url].
  split; [|split].
  - apply NoDup_app. split; [exact Hnodup|]. split; [|apply NoDup_singleton].
    intros u Hu Hu'. apply list_elem_of_singleton in Hu'. subst u.
    apply Hsame, Hold in Hu. lia.
  - intros u. rewrite elem_of_union, elem_of_singleton, elem_of_app,
      list_elem_of_singleton, Hsame. tauto.
  - intros u. rewrite elem_of_union, elem_of_singleton.
    intros [->|Hu]; [lia|]. apply Hold in Hu. lia.
Qed.

Lemma urls_accounted_load_image (i : nat) (s : State) :
  urls_accounted s -> urls_accounted (load_image i s).
Proof.
  intros Hs.
  destruct (load_image_cases i s) as [-> | [-> | [-> | [svg_element ->]]]];
    [exact Hs | exact Hs | exact Hs | apply urls_accounted_start, Hs].
Qed.

Lemma urls_accounted_release (k : nat) (d : Decode) (s : State) :
  pending s !! k = Some d -> urls_accounted s -> urls_accounted (release k d s).
Proof.
  intros Hd (Hnodup & Hsame & Hold). unfold urls_accounted.
  cbn [release pending object_urls url_counter].
  apply take_drop_middle in Hd as Hsplit.
  assert (Hk : length (take k (pending s)) = k).
  { apply length_take_le. apply lookup_lt_Some in Hd. lia. }
  assert (Hdel : delete k (pending s) = take k (pending s) ++ drop (S k) (pending s)).
  { rewrite <- Hsplit at 1. rewrite <- Hk at 1. apply delete_middle. }
  rewrite Hdel. rewrite <- Hsplit in Hnodup, Hsame.
  rewrite fmap_app, fmap_cons in Hnodup, Hsame.
  apply NoDup_app in Hnodup as (Hn1 & Hn2 & Hn3).
  apply NoDup_cons in Hn3 as [Hn3 Hn4].
  rewrite fmap_app.
  split; [|split].
  - apply NoDup_app. split; [exact Hn1|]. split; [|exact Hn4].
    intros u Hu Hu'. apply (Hn2 u Hu). right. exact Hu'.
  - intros u. rewrite elem_of_difference, elem_of_singleton, Hsame,
      !elem_of_app, elem_of_cons. split.
    + intros [[Hu|[Hu|Hu]] Hne]; [left; exact Hu | contradiction | right; exact Hu].
    + intros [Hu|Hu].
      * split; [left; exact Hu|]. intros ->. apply (Hn2 _ Hu). left.
      * split; [right; right; exact Hu|]. intros ->. contradiction.
  - intros u. rewrite elem_of_difference. intros [Hu _]. apply Hold, Hu.
Qed.

Lemma urls_accounted_paint (i : nat) (s : State) :
  urls_accounted s -> urls_accounted (paint i s).
Proof.
  intros Hs. unfold paint.
  destruct (items s !! i) as [[g t|g t im|g base expo|g its]|]; try exact Hs.
  destruct (image im); [exact Hs | apply urls_accounted_load_image, Hs].
Qed.

Lemma urls_accounted_fold (f : nat -> State -> State) (l : list nat) :
  (forall i s, urls_accounted s -> urls_accounted (f i s)) ->
  forall s, urls_accounted s -> urls_accounted (fold_left (fun s i => f i s) l s).
Proof.
  intros Hf. induction l as [|i l IH]; intros s Hs; cbn [fold_left];
    [exact Hs | apply IH, Hf, Hs].
Qed.

Lemma urls_accounted_step (s : State) (e : Event) :
  urls_accounted s -> urls_accounted (step s e).
Proof.
  intros Hs. destruct e as [i| |i|k svg_image|k|mathjax]; cbn [step].
  - apply urls_accounted_paint, Hs.
  - unfold paint_container.
    apply urls_accounted_fold; [apply urls_accounted_paint | exact Hs].
  - apply urls_accounted_load_image, Hs.
  - destruct (pending s !! k) as [d|] eqn:Hd;
      [|unfold decode_resolved; rewrite Hd; exact Hs].
    destruct (decode_resolved_frame k d svg_image s Hd) as (Hp & Hu & Hc & _).
    apply (urls_accounted_release k d s Hd) in Hs.
    unfold urls_accounted in *. rewrite Hp, Hu, Hc. exact Hs.
  - unfold decode_rejected. destruct (pending s !! k) as [d|] eqn:Hd; [|exact Hs].
    apply (urls_accounted_release k d s Hd), Hs.
  - unfold provider_settled.
    destruct (status s); try exact Hs;
      (apply urls_accounted_fold; [apply urls_accounted_load_image | exact Hs]).
Qed.

(** In every run of a view that starts without decodes and without object
    URLs, the object URLs that exist are those of the decodes in flight:
    none outlives its decode. *)
Lemma object_urls_never_leak (s : State) (events : list Event) :
  urls_accounted s -> urls_accounted (run s events).
Proof.
  unfold run. revert s. induction events as [|e events IH]; intros s Hs;
    cbn [fold_left]; [exact Hs | apply IH, urls_accounted_step, Hs].
Qed.

Lemma load_image_provider (i : nat) (s : State) :
  status (load_image i s) = status s /\ MathJax (load_image i s) = MathJax s.
Proof.
  destruct (load_image_cases i s) as [-> | [-> | [-> | [svg_element ->]]]];
    split; reflexivity.
Qed.

Lemma engine_as_status_fold (f : nat -> State -> State) (l : list nat) :
  (forall i s, status (f i s) = status s /\ MathJax (f i s) = MathJax s) ->
  forall s, engine_as_status s ->
            engine_as_status (fold_left (fun s i => f i s) l s).
Proof.
  intros Hf. induction l as [|i l IH]; intros s Hs; cbn [fold_left];
    [exact Hs|].
  apply IH. unfold engine_as_status in *.
  destruct (Hf i s) as [-> ->]. exact Hs.
Qed.

Lemma paint_provider (i : nat) (s : State) :
  status (paint i s) = status s /\ MathJax (paint i s) = MathJax s.
Proof.
  unfold paint.
  destruct (items s !! i) as [[g t|g t im|g base expo|g its]|];
    try (split; reflexivity).
  destruct (image im); [split; reflexivity | apply load_image_provider].
Qed.

(** Along every run the provider has its engine exactly when it is ready:
    one that failed has none. *)
Lemma engine_as_status_run (s : State) (events : list Event) :
  engine_as_status s -> engine_as_status (run s events).
Proof.
  unfold run. revert s. induction events as [|e events IH]; intros s Hs;
    cbn [fold_left]; [exact Hs|]. apply IH.
  destruct e as [i| |i|k svg_image|k|mathjax]; cbn [step].
  - unfold engine_as_status in *. destruct (paint_provider i s) as [-> ->].
    exact Hs.
  - unfold paint_container.
    apply engine_as_status_fold; [apply paint_provider | exact Hs].
  - unfold engine_as_status in *. destruct (load_image_provider i s) as [-> ->].
    exact Hs.
  - destruct (pending s !! k) as [d|] eqn:Hd;
      [|unfold decode_resolved; rewrite Hd; exact Hs].
    destruct (decode_resolved_frame k d svg_image s Hd)
      as (_ & _ & _ & Hst & Hmj & _).
    unfold engine_as_status in *. rewrite Hst, Hmj. exact Hs.
  - unfold decode_rejected. destruct (pending s !! k) as [d|]; exact Hs.
  - unfold provider_settled.
    destruct (status s) eqn:Est; try exact Hs;
      (apply engine_as_status_fold; [apply load_image_provider|];
       unfold engine_as_status; cbn [status MathJax];
       destruct mathjax; [eexists; reflexivity | reflexivity]).
Qed.






End ObjectURLs.



Lemma decode_releases_object_url_witness :
  let s := paint (H := sample_services) 0
             (sample_state ready (Some sample_engine)) in
  pending s = [ {| decode_box := 0; decode_svg := sample_svg; decode_url := 0 |} ]
  /\ (0%nat ∈ object_urls s)
  /\ (0%nat ∉ object_urls (decode_resolved (H := sample_services) 0 7 s))
  /\ (0%nat ∉ object_urls (decode_rejected 0 s)).
Proof.
  cbv zeta. split; [reflexivity|]. split.
  - exact (proj1 (proj1 (decode_releases_object_url (H := sample_services)
                           (sample_state ready (Some sample_engine)))
                    0%nat sample_svg)).
  - destruct (proj2 (decode_releases_object_url (H := sample_services)
                       (paint (H := sample_services) 0
                          (sample_state ready (Some sample_engine))))
                0%nat
                {| decode_box := 0; decode_svg := sample_svg; decode_url := 0 |}
                eq_refl) as (Hresolved & Hrejected & _).
    split; [exact (proj1 (Hresolved 7%nat)) | exact Hrejected].
Defined.

(* ================================================================== *)
(** * Further properties *)

(** ** The parts of a text *)

Lemma parse_math_parts_from (mj : MathJaxT) (source : list Z) :
  parse_math_parts (Some mj) source = parts_from source 0 (find_tex mj source).
Proof.
  unfold parse_math_parts.
  assert (G : forall parts acc last_index,
            (let '(parts', last') :=
               fold_left
                 (fun '(parts', last') part =>
                    let _text := JS.slice source last' (start_n part) in
                    let parts'' :=
                      match _text with
                      | [] => parts'
                      | _ :: _ => parts' ++ [new_TextBox _text]
                      end in
                    (parts'' ++ [new_ImageTextBox (math part)], end_n part))
                 parts (acc, last_index) in
             if Z.ltb last' (Z.of_nat (length source))
             then parts' ++ [new_TextBox (JS.slice_from source last')]
             else parts')
            = acc ++ parts_from source last_index parts).
  { induction parts as [|part parts IH]; intros acc last_index.
    - cbn [fold_left parts_from].
      destruct (Z.ltb last_index (Z.of_nat (length source)));
        [reflexivity | rewrite app_nil_r; reflexivity].
    - cbn [fold_left parts_from]. rewrite IH.
      destruct (JS.slice source last_index (start_n part)) as [|c gap];
        cbn [app]; rewrite <- !app_assoc; reflexivity. }
  exact (G (find_tex mj source) [] 0%Z).
Qed.

(** X1. The image boxes of the parts are, in order, one for each span that the
    engine has found, each with the math of its span and no image yet. *)
Theorem parse_math_parts_images (mj : MathJaxT) (source : list Z) :
  List.filter is_image_box (parse_math_parts (Some mj) source)
  = map (fun part => new_ImageTextBox (math part)) (find_tex mj source).
Proof.
  rewrite parse_math_parts_from. generalize 0%Z as last_index.
  induction (find_tex mj source) as [|part parts IH]; intros last_index;
    cbn [parts_from map].
  - destruct (Z.ltb last_index (Z.of_nat (length source))); reflexivity.
  - rewrite List.filter_app. cbn [List.filter is_image_box new_ImageTextBox].
    rewrite IH.
    destruct (JS.slice source last_index (start_n part)); reflexivity.
Qed.

Lemma slice_index_inside (len : nat) (i : Z) :
  (0 <= i <= Z.of_nat len)%Z -> JS.slice_index len i = Z.to_nat i.
Proof.
  intros Hi. unfold JS.slice_index.
  destruct (Z.ltb_spec i 0); [lia|]. apply Nat.min_l. lia.
Qed.

(** X2. As long as no span ends before the start of the text, no text box among
    the parts is empty. *)
Theorem parse_math_parts_no_empty_text (mj : MathJaxT) (source : list Z) :
  List.Forall (fun part => (0 <= end_n part)%Z) (find_tex mj source) ->
  forall g t, In (TextBox g t) (parse_math_parts (Some mj) source) ->
              text t <> [].
Proof.
  rewrite parse_math_parts_from. intros Hends.
  assert (G : forall parts last_index,
            (0 <= last_index)%Z ->
            List.Forall (fun part => (0 <= end_n part)%Z) parts ->
            forall g t, In (TextBox g t) (parts_from source last_index parts) ->
                        text t <> []).
  { induction parts as [|part parts IH]; intros last_index Hlast Hparts g t Hin;
      cbn [parts_from] in Hin.
    - destruct (Z.ltb_spec last_index (Z.of_nat (length source))) as [Hlt|];
        [|destruct Hin].
      destruct Hin as [Heq|[]]. injection Heq as _ <-. cbn [text new_TextFields].
      unfold JS.slice_from. rewrite slice_index_inside by lia.
      intros Hnil. apply (f_equal length) in Hnil.
      rewrite length_drop in Hnil. cbn [length] in Hnil. lia.
    - apply List.Forall_cons_iff in Hparts as [Hend Hparts].
      apply in_app_or in Hin as [Hin|[Hin|Hin]].
      + destruct (JS.slice source last_index (start_n part)) as [|c gap];
          [destruct Hin|].
        destruct Hin as [Heq|[]]. injection Heq as _ <-. discriminate.
      + discriminate Hin.
      + eapply IH; eassumption. }
  apply G; [lia | exact Hends].
Qed.

Lemma parse_math_parts_no_empty_text_witness :
  List.Forall (fun part => (0 <= end_n part)%Z)
    [ {| start_n := 2; end_n := 6; math := JS.lit "mc^2" |} ]
  /\ In (new_TextBox (JS.lit "E="))
       (parse_math_parts
          (Some {| find_tex := fun _ => [ {| start_n := 2; end_n := 6;
                                             math := JS.lit "mc^2" |} ];
                   tex2svg := fun _ _ _ => None;
                   mathml2svg := fun _ _ => None |})
          (JS.lit "E=mc^2"))
  /\ text (new_TextFields (JS.lit "E=")) <> [].
Proof.
  assert (Hspans : List.Forall (fun part => (0 <= end_n part)%Z)
                     [ {| start_n := 2; end_n := 6; math := JS.lit "mc^2" |} ]).
  { repeat constructor. vm_compute. discriminate. }
  assert (Hin : In (new_TextBox (JS.lit "E="))
                  (parse_math_parts
                     (Some {| find_tex := fun _ => [ {| start_n := 2; end_n := 6;
                                                        math := JS.lit "mc^2" |} ];
                              tex2svg := fun _ _ _ => None;
                              mathml2svg := fun _ _ => None |})
                     (JS.lit "E=mc^2"))).
  { left. reflexivity. }
  split; [exact Hspans|]. split; [exact Hin|].
  exact (parse_math_parts_no_empty_text
           {| find_tex := fun _ => [ {| start_n := 2; end_n := 6;
                                        math := JS.lit "mc^2" |} ];
              tex2svg := fun _ _ _ => None;
              mathml2svg := fun _ _ => None |}
           (JS.lit "E=mc^2") Hspans new_GraphicsBox (new_TextFields (JS.lit "E="))
           Hin).
Defined.

Lemma spans_in_order_bounds (from len : Z) (parts : list TexPart) :
  spans_in_order from len parts -> (0 <= from <= len)%Z.
Proof.
  revert from. induction parts as [|part parts IH]; intros from; cbn [spans_in_order].
  - tauto.
  - intros (Hfrom & Hspan & Hrest). apply IH in Hrest. lia.
Qed.

Lemma slice_inside (s : list Z) (a b : Z) :
  (0 <= a <= b)%Z -> (b <= Z.of_nat (length s))%Z ->
  JS.slice s a b = take (Z.to_nat b - Z.to_nat a) (drop (Z.to_nat a) s).
Proof.
  intros Hab Hb. unfold JS.slice. rewrite !slice_index_inside by lia.
  reflexivity.
Qed.

Lemma drop_split (s : list Z) (a b : nat) :
  (a <= b)%nat -> drop a s = take (b - a) (drop a s) ++ drop b s.
Proof.
  intros Hab. rewrite <- (take_drop (b - a) (drop a s)) at 1.
  rewrite drop_drop. replace (a + (b - a))%nat with b by lia. reflexivity.
Qed.

(** X3. Nothing of the text is lost between the parts: when the spans lie in the
    text one after the other, the text boxes and, for each image box, the
    stretch of its span, put together in order, are the text. *)
Theorem parse_math_parts_reassemble (mj : MathJaxT) (source : list Z) :
  spans_in_order 0 (Z.of_nat (length source)) (find_tex mj source) ->
  reassemble source (find_tex mj source) (parse_math_parts (Some mj) source)
  = source.
Proof.
  rewrite parse_math_parts_from.
  assert (G : forall parts from,
            spans_in_order from (Z.of_nat (length source)) parts ->
            reassemble source parts (parts_from source from parts)
            = drop (Z.to_nat from) source).
  { induction parts as [|part parts IH]; intros from Hspans;
      cbn [spans_in_order parts_from] in *.
    - destruct (Z.ltb_spec from (Z.of_nat (length source))) as [Hlt|Hge].
      + cbn [reassemble new_TextBox text new_TextFields].
        rewrite app_nil_r. unfold JS.slice_from.
        rewrite slice_index_inside by lia. reflexivity.
      + cbn [reassemble]. symmetry. apply drop_ge. lia.
    - destruct Hspans as (Hfrom & Hspan & Hrest).
      pose proof (spans_in_order_bounds _ _ _ Hrest) as Hend.
      specialize (IH _ Hrest).
      assert (Hgap : JS.slice source from (start_n part)
                     ++ JS.slice source (start_n part) (end_n part)
                     ++ drop (Z.to_nat (end_n part)) source
                     = drop (Z.to_nat from) source).
      { rewrite !slice_inside by lia.
        rewrite <- (drop_split source (Z.to_nat (start_n part))) by lia.
        rewrite <- (drop_split source (Z.to_nat from)) by lia. reflexivity. }
      rewrite <- Hgap.
      destruct (JS.slice source from (start_n part)) as [|c gap];
        cbn [app reassemble new_TextBox new_ImageTextBox text new_TextFields];
        rewrite IH; reflexivity. }
  intros Hspans. rewrite (G _ 0%Z Hspans). reflexivity.
Qed.

Lemma parse_math_parts_reassemble_witness :
  let mj := {| find_tex := fun _ => [ {| start_n := 2; end_n := 6;
                                         math := JS.lit "mc^2" |} ];
               tex2svg := fun _ _ _ => None;
               mathml2svg := fun _ _ => None |} in
  parse_math_parts (Some mj) (JS.lit "E=mc^2")
  = [new_TextBox (JS.lit "E="); new_ImageTextBox (JS.lit "mc^2")]
  /\ reassemble (JS.lit "E=mc^2") (find_tex mj (JS.lit "E=mc^2"))
       (parse_math_parts (Some mj) (JS.lit "E=mc^2"))
     = JS.lit "E=mc^2".
Proof.
  cbv zeta. split; [reflexivity|].
  apply (parse_math_parts_reassemble
           {| find_tex := fun _ => [ {| start_n := 2; end_n := 6;
                                        math := JS.lit "mc^2" |} ];
              tex2svg := fun _ _ _ => None;
              mathml2svg := fun _ _ => None |}
           (JS.lit "E=mc^2")).
  vm_compute. repeat split; discriminate.
Defined.

(** ** Setting positions *)

Section MorePositions.
Context `{Services}.
Local Open Scope Q_scope.

Lemma compute_items_positions_throws
    (place : Position -> GraphicsBox -> option GraphicsBox) (pos : Position)
    (l : list GraphicsBox) :
  List.Exists (fun item => forall q, place q item = None) l ->
  forall before previous sx',
    compute_items_positions place pos before previous sx' l = None.
Proof.
  induction 1 as [item l Hitem|item l _ IH]; intros before previous sx';
    cbn [compute_items_positions].
  - rewrite Hitem. reflexivity.
  - destruct (place _ item) as [item'|]; [|reflexivity].
    cbn [mbind option_bind]. rewrite IH. reflexivity.
Qed.

Lemma set_position_throws (b : GraphicsBox) :
  has_items b = false -> forall p, set_position p b = None.
Proof.
  induction b as [g t|g t i|g base expo IHbase IHexpo|g items IHitems]
    using GraphicsBox_nested_ind; cbn [has_items set_position]; intros Hb p;
    try discriminate.
  - apply andb_false_iff in Hb as [Hbase|Hexpo].
    + rewrite IHbase by assumption. reflexivity.
    + destruct (set_position _ base); [|reflexivity].
      cbn [mbind option_bind]. rewrite IHexpo by assumption. reflexivity.
  - destruct items as [|first rest]; [reflexivity|].
    cbn [forallb] in Hb. apply List.Forall_cons_iff in IHitems as [IHfirst IHrest].
    apply andb_false_iff in Hb as [Hfirst|Hrest].
    + rewrite IHfirst by assumption. reflexivity.
    + destruct (set_position _ first); [|reflexivity].
      cbn [mbind option_bind].
      rewrite compute_items_positions_throws; [reflexivity|].
      apply List.Exists_exists.
      assert (Hex : exists item, In item rest /\ has_items item = false).
      { clear - Hrest. induction rest as [|item rest IH]; [discriminate|].
        cbn [forallb] in Hrest. apply andb_false_iff in Hrest as [Hitem|Hrest].
        - exists item. split; [left; reflexivity | exact Hitem].
        - destruct (IH Hrest) as (item' & Hin & Hitem').
          exists item'. split; [right; exact Hin | exact Hitem']. }
      destruct Hex as (item & Hin & Hitem). exists item. split; [exact Hin|].
      rewrite List.Forall_forall in IHrest. intros q. apply IHrest; assumption.
Qed.

(** X4. Setting the position of a box throws exactly when a container in the box
    has no items, the box itself being one or not, and at whatever position. *)
Theorem set_position_throws_iff (b : GraphicsBox) (p : Position) :
  set_position p b = None <-> has_items b = false.
Proof.
  split.
  - intros Hnone. destruct (has_items b) eqn:Hb; [|reflexivity].
    destruct (set_position_total b Hb p) as [b' Hb']. congruence.
  - intros Hb. apply set_position_throws, Hb.
Qed.

(** X5. Setting a position changes no measure: the box has the [_size()], the
    [size()] and the inferred text height it had, and it is at the
    position set. *)
Theorem set_position_keeps_size (p : Position) (b b' : GraphicsBox) :
  set_position p b = Some b' ->
  _size b' = _size b /\ size b' = size b /\ angle b' = angle b
  /\ position b' = p.
Proof.
  intros Hset. pose proof (set_position_same_extent _ _ _ Hset) as Hsame.
  split; [apply Hsame|]. split; [apply same_extent_size, Hsame|].
  split; [apply Hsame | eapply set_position_position, Hset].
Qed.

(** X6. The position set last is the one that counts: setting a position on a box
    whose position was set before gives what it gives on the box as it was
    before, and setting the same position again changes nothing. *)
Theorem set_position_last_wins (p1 p2 : Position) (b b1 : GraphicsBox) :
  set_position p1 b = Some b1 ->
  set_position p2 b1 = set_position p2 b /\ set_position p1 b1 = Some b1.
Proof.
  intros Hset. split.
  - eapply set_position_overwrites, Hset.
  - rewrite (set_position_overwrites _ _ _ Hset). exact Hset.
Qed.

Lemma compute_items_positions_places (pos : Position) (l : list GraphicsBox) :
  forall before previous sx' l',
    compute_items_positions (fun p' item => set_position p' item)
      pos before previous sx' l = Some l' ->
    forall k item item',
      l !! k = Some item -> l' !! k = Some item' ->
      sx (position item')
      == sx' + width (_size previous)
         + sum_of (map (fun it => width (_size it)) (take k l))
      /\ sy (position item')
         = sy pos
           - (if is_top (default (YNamed VCenter) (y_anchor pos))
              then height (_size item)
                   - height (container_size (map _size (before ++ l)))
              else 0)
      /\ x_anchor (position item') = Some (XNamed Left)
      /\ y_anchor (position item')
         = Some (default (YNamed VCenter) (y_anchor pos))
      /\ _size item' = _size item.
Proof.
  induction l as [|first l IH]; intros before previous sx' l' Hrun k item item'
    Hitem Hitem'; [discriminate Hitem|].
  cbn [compute_items_positions] in Hrun.
  destruct (set_position _ first) as [first'|] eqn:Efirst; [|discriminate].
  cbn [mbind option_bind] in Hrun.
  destruct (compute_items_positions _ pos _ first' _ l) as [placed|] eqn:Erest;
    [|discriminate].
  injection Hrun as <-.
  pose proof (set_position_same_extent _ _ _ Efirst) as (Hsize & _).
  destruct k as [|k]; cbn [lookup list_lookup] in Hitem, Hitem'.
  - injection Hitem as <-. injection Hitem' as <-.
    rewrite (set_position_position _ _ _ Efirst).
    cbn [item_position sx sy x_anchor y_anchor take map sum_of fold_right].
    split; [lra|]. repeat split. exact Hsize.
  - destruct (IH _ _ _ _ Erest k item item' Hitem Hitem')
      as (Hsx & Hsy & Hxa & Hya & Hsz).
    split; [|split; [|repeat split; assumption]].
    + rewrite Hsx, Hsize. cbn [take map sum_of fold_right].
      fold (sum_of (map (fun it => width (_size it)) (take k l))). lra.
    + rewrite Hsy. rewrite <- app_assoc. cbn [app].
      rewrite !map_app. cbn [map]. rewrite Hsize. reflexivity.
Qed.

(** X7. The items of a container are laid out from left to right: once its
    position is set, the item [k] is anchored by its left at the left edge the
    container resolves for itself plus the widths of the items before it; its
    vertical anchor is the one given, or the centre; and its [sy] is the one
    given, lowered for the anchor [top] by what the container is higher than
    the item. *)
Theorem container_items_left_to_right (p : Position) (g : BoxFields)
    (items : list GraphicsBox) (b' : GraphicsBox) :
  set_position p (GraphicsContainer g items) = Some b' ->
  exists items',
    b' = GraphicsContainer (put_position p g) items'
    /\ length items' = length items
    /\ forall k item item',
         items !! k = Some item -> items' !! k = Some item' ->
         let total := _size (GraphicsContainer g items) in
         let left :=
           sx p - x_offset (default (XNamed (_x_anchor g)) (x_anchor p))
                    (width total) in
         let y_anchor' := default (YNamed VCenter) (y_anchor p) in
         sx (position item')
         == left + sum_of (map (fun it => width (_size it)) (take k items))
         /\ sy (position item')
            = sy p - (if is_top y_anchor'
                      then height (_size item) - height total else 0)
         /\ x_anchor (position item') = Some (XNamed Left)
         /\ y_anchor (position item') = Some y_anchor'
         /\ _size item' = _size item.
Proof.
  intros Hset. cbn [set_position] in Hset.
  destruct items as [|first rest]; [discriminate|].
  destruct (set_position _ first) as [first'|] eqn:Efirst; [|discriminate].
  cbn [mbind option_bind] in Hset.
  destruct (compute_items_positions _ _ _ first' _ rest) as [rest'|] eqn:Erest;
    [|discriminate].
  injection Hset as <-. exists (first' :: rest').
  pose proof (set_position_same_extent _ _ _ Efirst) as (Hfirst & _).
  assert (Hlen : length rest' = length rest).
  { symmetry. eapply List.Forall2_length.
    eapply (compute_items_positions_related (fun _ _ => True)); [|exact Erest].
    apply List.Forall_forall. intros; exact I. }
  split; [reflexivity|]. split; [cbn [length]; rewrite Hlen; reflexivity|].
  intros k item item' Hitem Hitem'. cbv zeta.
  destruct k as [|k]; cbn [lookup list_lookup] in Hitem, Hitem'.
  - injection Hitem as <-. injection Hitem' as <-.
    rewrite (set_position_position _ _ _ Efirst).
    cbn [item_position item_sy sx sy x_anchor y_anchor take map sum_of
           fold_right _size _computed_position fst put_position _position
           _x_anchor].
    split; [lra|]. repeat split. exact Hfirst.
  - destruct (compute_items_positions_places _ _ _ _ _ _ Erest k item item'
                Hitem Hitem') as (Hsx & Hsy & Hxa & Hya & Hsz).
    cbn [sx sy x_anchor y_anchor] in Hsx, Hsy, Hxa, Hya.
    split; [|split; [|repeat split; assumption]].
    + rewrite Hsx, Hfirst.
      cbn [take map sum_of fold_right _size _computed_position fst
             put_position _position _x_anchor sx x_anchor].
      fold (sum_of (map (fun it => width (_size it)) (take k rest))). lra.
    + rewrite Hsy. cbn [app map _size]. rewrite Hfirst. reflexivity.
Qed.

End MorePositions.

Lemma set_position_keeps_size_witness :
  exists b',
    set_position (H := sample_services)
      {| sx := 10; sy := 20; x_anchor := None; y_anchor := None |}
      (BaseExpo new_GraphicsBox sample_base sample_expo) = Some b'
    /\ _size (H := sample_services) b'
       = _size (H := sample_services)
           (BaseExpo new_GraphicsBox sample_base sample_expo)
    /\ position b' = {| sx := 10; sy := 20; x_anchor := None; y_anchor := None |}.
Proof.
  eexists. split; [reflexivity|].
  match goal with |- _size ?b' = _ /\ _ =>
    destruct (set_position_keeps_size (H := sample_services)
                {| sx := 10; sy := 20; x_anchor := None; y_anchor := None |}
                (BaseExpo new_GraphicsBox sample_base sample_expo) b' eq_refl)
      as (Hsize & _ & _ & Hposition) end.
  split; [exact Hsize | exact Hposition].
Defined.

Lemma set_position_last_wins_witness :
  exists b1,
    set_position (H := sample_services)
      {| sx := 10; sy := 20; x_anchor := None; y_anchor := None |}
      (new_GraphicsContainer [sample_base; sample_expo]) = Some b1
    /\ set_position (H := sample_services)
         {| sx := 1; sy := 2; x_anchor := None; y_anchor := None |} b1
       = set_position (H := sample_services)
           {| sx := 1; sy := 2; x_anchor := None; y_anchor := None |}
           (new_GraphicsContainer [sample_base; sample_expo]).
Proof.
  eexists. split; [reflexivity|].
  apply (set_position_last_wins (H := sample_services)
           {| sx := 10; sy := 20; x_anchor := None; y_anchor := None |}
           {| sx := 1; sy := 2; x_anchor := None; y_anchor := None |}
           (new_GraphicsContainer [sample_base; sample_expo])).
  reflexivity.
Defined.

Lemma container_items_left_to_right_witness :
  exists first' second',
    set_position (H := sample_services)
      {| sx := 10; sy := 20; x_anchor := None;
         y_anchor := Some (YNamed Top) |}
      (new_GraphicsContainer [new_TextBox (JS.lit "ab"); sunk_box])
    = Some (GraphicsContainer
              (put_position
                 {| sx := 10; sy := 20; x_anchor := None;
                    y_anchor := Some (YNamed Top) |} new_GraphicsBox)
              [first'; second'])
    /\ (sx (position first') == 10)%Q /\ (sx (position second') == 12)%Q
    /\ (sy (position first') == 20)%Q /\ (sy (position second') == 40)%Q.
Proof.
  destruct (container_items_left_to_right (H := sample_services)
              {| sx := 10; sy := 20; x_anchor := None;
                 y_anchor := Some (YNamed Top) |}
              new_GraphicsBox [new_TextBox (JS.lit "ab"); sunk_box] _ eq_refl)
    as (items' & Heq & Hlen & Hplaces).
  injection Heq as <-.
  eexists _, _. split; [reflexivity|].
  destruct (Hplaces 0%nat _ _ eq_refl eq_refl) as (Hsx0 & _).
  destruct (Hplaces 1%nat _ _ eq_refl eq_refl) as (Hsx1 & _).
  cbv zeta in *.
  split; [rewrite Hsx0; vm_compute; reflexivity|].
  split; [rewrite Hsx1; vm_compute; reflexivity|].
  split; vm_compute; reflexivity.
Defined.

(** ** Text heights, angles and font sizes *)

Lemma infer_text_height_range (b : GraphicsBox) :
  infer_text_height b = TextHeightMetric.cap
  \/ infer_text_height b = TextHeightMetric.ascent_descent.
Proof.
  induction b as [g t|g t i|g base expo IHbase _|g items _]
    using GraphicsBox_nested_ind; cbn [infer_text_height].
  - unfold TextBox_infer_text_height.
    destruct (JS.includes _ _); [auto|]. destruct (is_math_like _); auto.
  - unfold TextBox_infer_text_height.
    destruct (JS.includes _ _); [auto|]. destruct (is_math_like _); auto.
  - exact IHbase.
  - auto.
Qed.

Section MoreVisuals.
Context `{Services}.

(** X8. The metric that the visuals of a container give all its items is [cap]
    when every item infers [cap], and [ascent_descent] as soon as one item
    does not: no box infers any of the four other metrics. *)
Theorem container_metric_cap_or_full (g g' : BoxFields)
    (items items' : list GraphicsBox) (v : TextValues) :
  set_visuals v (GraphicsContainer g items) = Some (GraphicsContainer g' items') ->
  forall item', In item' items' ->
    text_height_metric (fields item')
    = Some (if forallb (fun item => is_cap (infer_text_height item)) items
            then TextHeightMetric.cap
            else TextHeightMetric.ascent_descent).
Proof.
  unfold set_visuals. cbn [set_visuals_scaled]. intros Hset.
  destruct (for_each _ items) as [styled|] eqn:Eeach; [|discriminate].
  cbn [mbind option_bind] in Hset.
  destruct (max_by _ metric_map) as [common|] eqn:Emax; [|discriminate].
  injection Hset as _ <-.
  assert (Hinfer : map infer_text_height styled = map infer_text_height items).
  { apply Forall2_map_eq. eapply for_each_related; [|exact Eeach].
    apply List.Forall_forall. intros item _ item0 Hitem.
    eapply set_visuals_infer_text_height, Hitem. }
  rewrite Hinfer in Emax. apply max_by_spec in Emax as [Hin Hmax].
  assert (Hcommon :
    common = if forallb (fun item => is_cap (infer_text_height item)) items
             then TextHeightMetric.cap else TextHeightMetric.ascent_descent).
  { destruct (forallb _ items) eqn:Hall.
    - apply in_map_iff in Hin as (item & <- & Hitem).
      rewrite forallb_forall in Hall. specialize (Hall item Hitem).
      destruct (infer_text_height item); try discriminate Hall. reflexivity.
    - assert (Hex : exists item, In item items
                      /\ is_cap (infer_text_height item) = false).
      { clear - Hall. induction items as [|item items IH]; [discriminate|].
        cbn [forallb] in Hall. apply andb_false_iff in Hall as [Hitem|Hrest].
        - exists item. split; [left; reflexivity | exact Hitem].
        - destruct (IH Hrest) as (item' & Hin' & Hitem').
          exists item'. split; [right; exact Hin' | exact Hitem']. }
      destruct Hex as (item & Hitem & Hnot).
      assert (Hfull : infer_text_height item = TextHeightMetric.ascent_descent).
      { destruct (infer_text_height_range item) as [Hc|Hf]; [|exact Hf].
        rewrite Hc in Hnot. discriminate Hnot. }
      specialize (Hmax _ (in_map infer_text_height _ _ Hitem)).
      rewrite Hfull in Hmax. cbn [metric_map] in Hmax.
      destruct common; cbn [metric_map] in Hmax; try lia. reflexivity. }
  intros item' Hitem'. apply in_map_iff in Hitem' as (item & <- & _).
  rewrite <- Hcommon. destruct item; reflexivity.
Qed.

End MoreVisuals.

Lemma container_metric_cap_or_full_witness :
  exists g' items',
    set_visuals (H := sample_services) sample_values
      (new_GraphicsContainer [new_TextBox (JS.lit "1.5"); new_TextBox (JS.lit "-2e3")])
    = Some (GraphicsContainer g' items')
    /\ forall item', In item' items' ->
         text_height_metric (fields item') = Some TextHeightMetric.cap.
Proof.
  eexists _, _. split; [reflexivity|].
  eapply (container_metric_cap_or_full (H := sample_services) new_GraphicsBox _
            [new_TextBox (JS.lit "1.5"); new_TextBox (JS.lit "-2e3")] _
            sample_values).
  reflexivity.
Defined.

Section Cascades.
Context `{Services}.
Local Open Scope Q_scope.

Lemma map_ext_Forall {A B : Type} (f g : A -> B) (l : list A) :
  List.Forall (fun a => f a = g a) l -> map f l = map g l.
Proof. induction 1; cbn [map]; congruence. Qed.

Lemma GraphicsBox_set_angle_size (v : option Q) (g : BoxFields) (t : TextFields) :
  TextBox_size (GraphicsBox_set_angle v g) t = TextBox_size g t.
Proof. destruct v; reflexivity. Qed.

(** X9. Setting the angle of a box changes the [_size()] of no box. A container
    hands the angle to its items, whose own [_size()] does not read it; a
    [BaseExpo], whose [_size()] reads the angles of its children, keeps the
    angle for itself and leaves its children as they are. *)
Theorem set_angle_keeps_size (v : option Q) (b : GraphicsBox) :
  _size (set_angle v b) = _size b
  /\ (forall a g items,
        v = Some a -> b = GraphicsContainer g items ->
        angle (set_angle v b) = Some a
        /\ List.Forall (fun item => angle item = Some a)
             (box_children (set_angle v b)))
  /\ (forall g base expo,
        b = BaseExpo g base expo ->
        box_children (set_angle v b) = [base; expo]).
Proof.
  split; [|split].
  - induction b as [g t|g t i|g base expo _ _|g items IHitems]
      using GraphicsBox_nested_ind; cbn [set_angle _size].
    + apply GraphicsBox_set_angle_size.
    + destruct v; reflexivity.
    + reflexivity.
    + rewrite map_map. f_equal. apply map_ext_Forall. exact IHitems.
  - intros a g items -> ->. cbn [set_angle box_children]. split; [reflexivity|].
    apply List.Forall_forall. intros item' Hin.
    apply in_map_iff in Hin as (item & <- & _). destruct item; reflexivity.
  - intros g base expo ->. reflexivity.
Qed.

(** X10. A base font size that is set reaches every box: the box, and every box
    in it, has that size afterwards. Setting [null] changes nothing. *)
Theorem set_base_font_size_reaches_all (b : GraphicsBox) (v : Q) :
  List.Forall (fun g => _base_font_size g = v)
    (all_fields (set_base_font_size (Some v) b))
  /\ set_base_font_size None b = b
  /\ _size (set_base_font_size (Some v) b) = _size b.
Proof.
  split; [|split].
  - induction b as [g t|g t i|g base expo IHbase IHexpo|g items IHitems]
      using GraphicsBox_nested_ind; cbn [set_base_font_size all_fields].
    + repeat constructor.
    + repeat constructor.
    + constructor; [reflexivity|]. apply List.Forall_app. split; assumption.
    + constructor; [reflexivity|].
      induction IHitems as [|item items Hitem _ IH]; cbn [map flat_map];
        [constructor|]. apply List.Forall_app. split; assumption.
  - induction b as [g t|g t i|g base expo IHbase IHexpo|g items IHitems]
      using GraphicsBox_nested_ind; cbn [set_base_font_size];
      try reflexivity.
    + rewrite IHbase, IHexpo. reflexivity.
    + f_equal. rewrite <- (map_id items) at 2. apply map_ext_Forall.
      exact IHitems.
  - induction b as [g t|g t i|g base expo IHbase IHexpo|g items IHitems]
      using GraphicsBox_nested_ind; cbn [set_base_font_size _size];
      try reflexivity.
    + assert (Hscale : _shift_scale (set_base_font_size (Some v) base)
                       = _shift_scale base).
      { destruct base; reflexivity. }
      assert (Hangle : forall c, angle (set_base_font_size (Some v) c) = angle c).
      { intros c. destruct c; reflexivity. }
      rewrite IHbase, IHexpo, Hscale, !Hangle. reflexivity.
    + rewrite map_map. f_equal. apply map_ext_Forall. exact IHitems.
Qed.

(** X11. [max_size] is the least size that is not negative and holds the
    [size()] of every item: it is no smaller than any of them in either
    direction, and each of its measures is 0 or that of an item. *)
Theorem max_size_bounds (items : list GraphicsBox) :
  (forall item, In item items ->
     width (size item) <= width (max_size items)
     /\ height (size item) <= height (max_size items))
  /\ 0 <= width (max_size items) /\ 0 <= height (max_size items)
  /\ (width (max_size items) = 0
      \/ exists item, In item items /\ width (max_size items) = width (size item))
  /\ (height (max_size items) = 0
      \/ exists item, In item items /\ height (max_size items) = height (size item)).
Proof.
  unfold max_size.
  assert (G : forall items acc,
            let total :=
              fold_left
                (fun acc item =>
                   {| width := Qmax (width acc) (width (size item));
                      height := Qmax (height acc) (height (size item)) |})
                items acc in
            (width acc <= width total /\ height acc <= height total)
            /\ (forall item, In item items ->
                  width (size item) <= width total
                  /\ height (size item) <= height total)
            /\ (width total = width acc
                \/ exists item, In item items /\ width total = width (size item))
            /\ (height total = height acc
                \/ exists item, In item items /\ height total = height (size item))).
  { clear items. intros items. induction items as [|item items IH]; intros acc; cbv zeta.
    - cbn [fold_left]. split; [split; apply Qle_refl|].
      split; [intros ? []|]. split; left; reflexivity.
    - cbn [fold_left].
      destruct (IH {| width := Qmax (width acc) (width (size item));
                      height := Qmax (height acc) (height (size item)) |})
        as ((Hw & Hh) & Hall & Hwa & Hha). cbn [width height] in *.
      split; [split; (eapply Qle_trans; [apply Q.le_max_l | eassumption])|].
      split.
      { intros it [<-|Hin]; [|apply Hall, Hin].
        split; (eapply Qle_trans; [apply Q.le_max_r | eassumption]). }
      split.
      + destruct Hwa as [Hwa|(it & Hin & Hit)];
          [|right; exists it; split; [right; exact Hin | exact Hit]].
        rewrite Hwa. unfold Qmax, GenericMinMax.gmax.
        destruct (width acc ?= width (size item));
          [left; reflexivity | right; exists item; split; [left|]; reflexivity
          | left; reflexivity].
      + destruct Hha as [Hha|(it & Hin & Hit)];
          [|right; exists it; split; [right; exact Hin | exact Hit]].
        rewrite Hha. unfold Qmax, GenericMinMax.gmax.
        destruct (height acc ?= height (size item));
          [left; reflexivity | right; exists item; split; [left|]; reflexivity
          | left; reflexivity]. }
  destruct (G items {| width := 0; height := 0 |})
    as ((Hw & Hh) & Hall & Hwa & Hha). cbv zeta in *. cbn [width height] in *.
  split; [exact Hall|]. split; [exact Hw|]. split; [exact Hh|].
  split; assumption.
Qed.

End Cascades.

Lemma set_angle_keeps_size_witness :
  angle (set_angle (Some (1 # 2)) (new_GraphicsContainer [sample_base; sample_expo]))
  = Some (1 # 2)
  /\ List.Forall (fun item => angle item = Some (1 # 2))
       (box_children
          (set_angle (Some (1 # 2))
             (new_GraphicsContainer [sample_base; sample_expo]))).
Proof.
  apply (proj1 (proj2 (set_angle_keeps_size (H := sample_services)
                         (Some (1 # 2))
                         (new_GraphicsContainer [sample_base; sample_expo])))
           (1 # 2) new_GraphicsBox [sample_base; sample_expo] eq_refl eq_refl).
Defined.

Section ImageMeasures.
Context `{Services}.
Local Open Scope Q_scope.

(** X12. An image box without an image measures 0 by 0, whatever its fields. With
    an image it is as wide as the image and as high as the higher of the
    image and of a line of its font, each times the override of the box if it
    has one: an image is never lower than a line. *)
Theorem ImageTextBox_size_floor (g : BoxFields) (t : TextFields) (i : ImageFields) :
  (image i = None ->
   _size (ImageTextBox g t i) = {| width := 0; height := 0 |})
  /\ (is_Some (image i) ->
      width (_size (ImageTextBox g t i))
      = ip_width (image_properties i) * scale_of (box_width g)
      /\ height (_size (ImageTextBox g t i))
         == Qmax (ip_height (image_properties i))
              (fm_height (font_metrics (font t)))
            * scale_of (box_height g)
      /\ (box_height g = None ->
          fm_height (font_metrics (font t)) <= height (_size (ImageTextBox g t i)))).
Proof.
  cbn [_size]. unfold ImageTextBox_size. split.
  - intros ->. reflexivity.
  - intros [img ->]. split; [reflexivity|].
    assert (Hmax :
      (if Qlt_le_dec (ip_height (image_properties i))
            (fm_height (font_metrics (font t)))
       then fm_height (font_metrics (font t))
       else ip_height (image_properties i))
      == Qmax (ip_height (image_properties i))
           (fm_height (font_metrics (font t)))).
    { destruct (Qlt_le_dec _ _) as [Hlt|Hle].
      - symmetry. apply Q.max_r. apply Qlt_le_weak, Hlt.
      - symmetry. apply Q.max_l. exact Hle. }
    cbn [height]. split; [rewrite Hmax; reflexivity|].
    intros ->. cbn [scale_of]. rewrite Hmax, Qmult_1_r. apply Q.le_max_r.
Qed.

(** X13. [max_v_align] is the offset of largest absolute value among the image
    boxes of the list: none of them has a larger one, and it is 0 or the
    offset of one of them. *)
Theorem max_v_align_largest (items : list GraphicsBox) :
  (forall g t i, In (ImageTextBox g t i) items ->
     Qabs (v_align (image_properties i)) <= Qabs (max_v_align items))
  /\ (max_v_align items = 0
      \/ exists g t i, In (ImageTextBox g t i) items
                       /\ max_v_align items = v_align (image_properties i)).
Proof.
  unfold max_v_align.
  set (value_of := fun item : GraphicsBox =>
                     match item with
                     | ImageTextBox _ _ i => v_align (image_properties i)
                     | _ => 0
                     end).
  set (step' := fun '(max, max_value) value =>
                  if Qlt_le_dec max (Math_abs value) then (Math_abs value, value)
                  else (max, max_value)).
  assert (G : forall values acc,
            fst acc = Qabs (snd acc) ->
            let out := fold_left step' values acc in
            fst out = Qabs (snd out)
            /\ fst acc <= fst out
            /\ (forall value, In value values -> Qabs value <= fst out)
            /\ (snd out = snd acc \/ In (snd out) values)).
  { induction values as [|value values IH]; intros [mx mv] Hacc; cbv zeta.
    - cbn [fold_left]. split; [exact Hacc|]. split; [apply Qle_refl|].
      split; [intros ? []|]. left; reflexivity.
    - cbn [fold_left]. cbn [fst snd] in Hacc.
      destruct (IH (step' (mx, mv) value)) as (Hout & Hle & Hall & Hin).
      { unfold step'. destruct (Qlt_le_dec mx (Math_abs value)); [reflexivity|].
        exact Hacc. }
      split; [exact Hout|].
      assert (Hstep : mx <= fst (step' (mx, mv) value)
                      /\ Qabs value <= fst (step' (mx, mv) value)
                      /\ (snd (step' (mx, mv) value) = mv
                          \/ snd (step' (mx, mv) value) = value)).
      { unfold step', Math_abs. destruct (Qlt_le_dec mx (Qabs value)) as [Hlt|Hge];
          cbn [fst snd].
        - split; [apply Qlt_le_weak, Hlt|]. split; [apply Qle_refl | right; reflexivity].
        - split; [apply Qle_refl|]. split; [exact Hge | left; reflexivity]. }
      destruct Hstep as (H1 & H2 & H3). cbn [fst snd].
      split; [eapply Qle_trans; eassumption|].
      split.
      + intros value' [<-|Hvalue']; [eapply Qle_trans; eassumption | apply Hall, Hvalue'].
      + destruct Hin as [Hin|Hin]; [|right; right; exact Hin].
        rewrite Hin. destruct H3 as [->| ->]; [left; reflexivity | right; left; reflexivity]. }
  destruct (G (map value_of (List.filter is_image_box items)) (0, 0) eq_refl)
    as (Hout & _ & Hall & Hin). cbv zeta in *. cbn [snd] in Hin.
  split.
  - intros g t i Hitem. rewrite <- Hout. apply Hall.
    change (v_align (image_properties i)) with (value_of (ImageTextBox g t i)).
    apply in_map. apply List.filter_In. split; [exact Hitem | reflexivity].
  - destruct Hin as [Hin|Hin]; [left; exact Hin|].
    apply in_map_iff in Hin as (item & Hvalue & Hitem).
    apply List.filter_In in Hitem as [Hitem Himage].
    destruct item as [|g t i| |]; try discriminate Himage.
    right. exists g, t, i. split; [exact Hitem | symmetry; exact Hvalue].
Qed.

End ImageMeasures.

Lemma ImageTextBox_size_floor_witness :
  let box :=
    {| image := Some 7%nat;
       image_properties := {| ip_width := 9; ip_height := 6; v_align := 1 |} |} in
  (height (_size (H := sample_services)
             (ImageTextBox new_GraphicsBox (new_TextFields (JS.lit "x")) box))
   == 12)%Q.
Proof.
  cbv zeta.
  destruct (proj2 (ImageTextBox_size_floor (H := sample_services) new_GraphicsBox
                     (new_TextFields (JS.lit "x"))
                     {| image := Some 7%nat;
                        image_properties :=
                          {| ip_width := 9; ip_height := 6; v_align := 1 |} |})
              (ex_intro _ 7%nat eq_refl)) as (_ & Hheight & _).
  rewrite Hheight. vm_compute. reflexivity.
Defined.

(** ** Runs of a view *)

Lemma has_images_loaded_spec (s : State) :
  has_images_loaded s = true
  <-> forall j b, items s !! j = Some b -> is_image_box b = true ->
                  is_Some (image_of b).
Proof.
  unfold has_images_loaded. rewrite forallb_forall. split.
  - intros Hall j b Hb Himage.
    apply (proj1 (bool_decide_eq_true _)). apply Hall.
    apply list_elem_of_In, list_elem_of_filter. split; [exact Himage|].
    eapply list_elem_of_lookup_2, Hb.
  - intros Hall b Hin.
    apply list_elem_of_In, list_elem_of_filter in Hin as [Himage Hin].
    apply list_elem_of_lookup in Hin as [j Hb].
    apply (proj2 (bool_decide_eq_true _)). eapply Hall; eassumption.
Qed.

Lemma same_item_refl (b : GraphicsBox) : same_item b b.
Proof. destruct b; cbn; try reflexivity. eexists. split; [reflexivity | auto]. Qed.

Lemma same_item_trans (b1 b2 b3 : GraphicsBox) :
  same_item b1 b2 -> same_item b2 b3 -> same_item b1 b3.
Proof.
  destruct b1 as [g t|g t im| |]; cbn; try (intros -> ->; reflexivity).
  intros (im2 & -> & H12). cbn. intros (im3 & -> & H23).
  exists im3. split; [reflexivity | auto].
Qed.

Lemma same_items_refl (l : list GraphicsBox) : List.Forall2 same_item l l.
Proof. induction l; constructor; [apply same_item_refl | assumption]. Qed.

Lemma same_items_trans (l1 l2 l3 : list GraphicsBox) :
  List.Forall2 same_item l1 l2 -> List.Forall2 same_item l2 l3 ->
  List.Forall2 same_item l1 l3.
Proof.
  intros H12. revert l3. induction H12 as [|a b l1 l2 Hab _ IH]; intros l3 H23.
  - inversion H23. constructor.
  - inversion H23 as [|b' c l2' l3' Hbc Hrest]; subst. constructor.
    + eapply same_item_trans; eassumption.
    + apply IH, Hrest.
Qed.

Lemma same_items_insert (l : list GraphicsBox) (i : nat) (b b' : GraphicsBox) :
  l !! i = Some b -> same_item b b' -> List.Forall2 same_item l (<[i := b']> l).
Proof.
  revert i. induction l as [|a l IH]; intros [|i] Hb Hsame; try discriminate Hb.
  - injection Hb as ->. constructor; [exact Hsame | apply same_items_refl].
  - constructor; [apply same_item_refl | apply IH; assumption].
Qed.

Section Runs.
Context `{Services}.

Lemma view_kept_refl (s : State) : view_kept s s.
Proof. repeat split. apply same_items_refl. Qed.

Lemma view_kept_trans (s1 s2 s3 : State) :
  view_kept s1 s2 -> view_kept s2 s3 -> view_kept s1 s3.
Proof.
  intros (Hk & Hm & Hc & Hi) (Hk' & Hm' & Hc' & Hi').
  repeat split; try congruence. eapply same_items_trans; eassumption.
Qed.

Lemma view_kept_load_image (i : nat) (s : State) : view_kept s (load_image i s).
Proof.
  destruct (load_image_cases i s) as [-> | [-> | [-> | [svg_element ->]]]];
    repeat split; apply same_items_refl.
Qed.

Lemma view_kept_paint (i : nat) (s : State) : view_kept s (paint i s).
Proof.
  unfold paint.
  destruct (items s !! i) as [[g t|g t im|g base expo|g its]|];
    try apply view_kept_refl.
  destruct (image im); [apply view_kept_refl | apply view_kept_load_image].
Qed.

Lemma view_kept_fold (f : nat -> State -> State) (l : list nat) :
  (forall i s, view_kept s (f i s)) ->
  forall s, view_kept s (fold_left (fun s i => f i s) l s).
Proof.
  intros Hf. induction l as [|i l IH]; intros s; cbn [fold_left].
  - apply view_kept_refl.
  - eapply view_kept_trans; [apply Hf | apply IH].
Qed.

Lemma view_kept_assign (d : Decode) (svg_image : nat) (s : State) :
  view_kept s (assign_image d svg_image s).
Proof.
  unfold assign_image.
  destruct (items s !! decode_box d) as [[g t|g t im|g base expo|g its]|] eqn:Hb;
    try apply view_kept_refl.
  repeat split; cbn [items put_items].
  eapply same_items_insert; [exact Hb|]. cbn. eexists. split; [reflexivity|].
  intros _. eexists. reflexivity.
Qed.

Lemma view_kept_assign_properties (d : Decode) (s s' : State) :
  assign_image_properties d s = Some s' -> view_kept s s'.
Proof.
  unfold assign_image_properties.
  destruct (items s !! decode_box d) as [[g t|g t im|g base expo|g its]|] eqn:Hb;
    try (intros [= <-]; apply view_kept_refl).
  destruct (get_image_properties _ _) as [properties|]; cbn [mbind option_bind];
    [|discriminate].
  intros [= <-]. repeat split; cbn [items put_items].
  eapply same_items_insert; [exact Hb|]. cbn. eexists. split; [reflexivity|].
  intros Him. exact Him.
Qed.

Lemma view_kept_release (k : nat) (d : Decode) (s : State) :
  view_kept s (release k d s).
Proof. repeat split. apply same_items_refl. Qed.

Lemma view_kept_step (s : State) (e : Event) : view_kept s (step s e).
Proof.
  destruct e as [i| |i|k svg_image|k|mathjax]; cbn [step].
  - apply view_kept_paint.
  - unfold paint_container. apply view_kept_fold, view_kept_paint.
  - apply view_kept_load_image.
  - unfold decode_resolved. destruct (pending s !! k) as [d|]; [|apply view_kept_refl].
    pose proof (view_kept_trans _ _ _ (view_kept_release k d s)
                  (view_kept_assign d svg_image (release k d s))) as Hkept.
    destruct (assign_image_properties d _) as [s'|] eqn:Hproperties;
      [|exact Hkept].
    apply view_kept_assign_properties in Hproperties.
    pose proof (view_kept_trans _ _ _ Hkept Hproperties) as Hkept'.
    match goal with |- context [if ?c then _ else _] => destruct c end;
      exact Hkept'.
  - unfold decode_rejected.
    destruct (pending s !! k) as [d|];
      [apply view_kept_release | apply view_kept_refl].
  - unfold provider_settled.
    destruct (status s); try apply view_kept_refl;
      (eapply view_kept_trans; [|apply view_kept_fold, view_kept_load_image];
       repeat split; apply same_items_refl).
Qed.

(** X14. A run of a view leaves its boxes what they are: the container has as
    many items after it, each of the kind, with the fields and with the text
    it had; the one thing that changes is that an image box may have got its
    image and the properties of it, and an image that a box has is never
    taken from it. *)
Theorem run_keeps_items (s : State) (events : list Event) :
  kind (run s events) = kind s
  /\ model_text (run s events) = model_text s
  /\ container (run s events) = container s
  /\ List.Forall2 same_item (items s) (items (run s events)).
Proof.
  unfold run. revert s. induction events as [|e events IH]; intros s;
    cbn [fold_left].
  - apply view_kept_refl.
  - exact (view_kept_trans _ _ _ (view_kept_step s e) (IH (step s e))).
Qed.

(** X15. Once every image box has its image, painting loads nothing: the paint of
    an item and the paint of the whole container leave the state of the view
    as it is, without a call, a signal or a decode. *)
Theorem paint_loaded_is_idle (s : State) :
  has_images_loaded s = true ->
  (forall i, paint i s = s) /\ paint_container s = s.
Proof.
  intros Hloaded.
  assert (Hpaint : forall i, paint i s = s).
  { intros i. unfold paint.
    destruct (items s !! i) as [[g t|g t im|g base expo|g its]|] eqn:Hb;
      try reflexivity.
    destruct (proj1 (has_images_loaded_spec s) Hloaded i _ Hb eq_refl) as [img Himg].
    cbn [image_of] in Himg. rewrite Himg. reflexivity. }
  split; [exact Hpaint|]. unfold paint_container.
  induction (seq 0 (length (items s))) as [|i l IH]; cbn [fold_left];
    [reflexivity|]. rewrite Hpaint. exact IH.
Qed.

(** X16. When a decode gives its image, the box it was started for has that
    image. When [get_image_properties] returns, the box has the properties it
    gives and a layout is asked for once; if every other image box has its
    image by then the pipeline is finished and says so once, and if one has
    not, neither the flag nor the count of signals moves. When
    [get_image_properties] throws, the box keeps the properties it had, no
    layout is asked for, and neither the flag nor the count of signals
    moves, whatever the other boxes have. *)
Theorem decode_resolved_completes (s : State) (k : nat) (d : Decode)
    (svg_image : nat) (g : BoxFields) (t : TextFields) (im : ImageFields) :
  pending s !! k = Some d ->
  items s !! decode_box d = Some (ImageTextBox g t im) ->
  let s' := decode_resolved k svg_image s in
  (forall properties,
     get_image_properties (decode_svg d) (font_metrics (font t))
     = Some properties ->
     items s'
     = <[decode_box d :=
           ImageTextBox g t
             {| image := Some svg_image; image_properties := properties |}]>
         (items s)
     /\ layout_requests s' = S (layout_requests s)
     /\ (others_loaded s (decode_box d) ->
         _has_finished s' = true
         /\ notified_finished s' = S (notified_finished s))
     /\ (~ others_loaded s (decode_box d) ->
         _has_finished s' = _has_finished s
         /\ notified_finished s' = notified_finished s))
  /\ (get_image_properties (decode_svg d) (font_metrics (font t)) = None ->
      items s'
      = <[decode_box d :=
            ImageTextBox g t
              {| image := Some svg_image;
                 image_properties := image_properties im |}]>
          (items s)
      /\ layout_requests s' = layout_requests s
      /\ _has_finished s' = _has_finished s
      /\ notified_finished s' = notified_finished s).
Proof.
  intros Hd Hbox. cbv zeta. unfold decode_resolved. rewrite Hd.
  assert (Hlt : (decode_box d < length (items s))%nat).
  { eapply lookup_lt_Some, Hbox. }
  unfold assign_image. cbn [items release]. rewrite Hbox.
  unfold assign_image_properties. cbn [items put_items].
  rewrite list_lookup_insert_eq by exact Hlt. cbn [font image].
  split.
  - intros properties ->. cbn [mbind option_bind].
    rewrite list_insert_insert_eq.
    match goal with |- context [has_images_loaded ?s0] => set (s1 := s0) end.
    assert (Hitems : items s1
              = <[decode_box d :=
                    ImageTextBox g t
                      {| image := Some svg_image;
                         image_properties := properties |}]> (items s)).
    { reflexivity. }
    assert (Hloaded : has_images_loaded s1 = true
                      <-> others_loaded s (decode_box d)).
    { rewrite has_images_loaded_spec, Hitems. unfold others_loaded. split.
      - intros Hall j b Hne Hb Himage. apply (Hall j b); [|exact Himage].
        rewrite list_lookup_insert_ne by congruence. exact Hb.
      - intros Hothers j b Hb Himage.
        destruct (decide (j = decode_box d)) as [->|Hne].
        + rewrite list_lookup_insert_eq in Hb by exact Hlt.
          injection Hb as <-. eexists. reflexivity.
        + rewrite list_lookup_insert_ne in Hb by congruence.
          eapply Hothers; eassumption. }
    destruct (has_images_loaded s1) eqn:E.
    + split; [exact Hitems|]. split; [reflexivity|]. split.
      * intros _. split; reflexivity.
      * intros Hnot. exfalso. apply Hnot, Hloaded. reflexivity.
    + split; [exact Hitems|]. split; [reflexivity|]. split.
      * intros Hothers. apply Hloaded in Hothers. discriminate Hothers.
      * intros _. split; reflexivity.
  - intros ->. cbn [mbind option_bind]. repeat split.
Qed.

End Runs.

Lemma decode_resolved_completes_witness :
  let s := paint (H := sample_services) 0
             (sample_state ready (Some sample_engine)) in
  let s' := decode_resolved (H := sample_services) 0 7 s in
  let bare := paint (H := sample_services) 0
                (sample_state ready (Some sample_bare_engine)) in
  let bare' := decode_resolved (H := sample_services) 0 7 bare in
  (image_of <$> items s' = [Some 7%nat]
   /\ layout_requests s' = 1%nat
   /\ _has_finished s' = true
   /\ notified_finished s' = 1%nat)
  /\ (image_of <$> items bare' = [Some 7%nat]
      /\ layout_requests bare' = 0%nat
      /\ _has_finished bare' = false
      /\ notified_finished bare' = 0%nat).
Proof.
  cbv zeta. split.
  - destruct (decode_resolved_completes (H := sample_services)
                (paint (H := sample_services) 0
                   (sample_state ready (Some sample_engine)))
                0 {| decode_box := 0; decode_svg := sample_svg; decode_url := 0 |}
                7 new_GraphicsBox (new_TextFields (JS.lit "x"))
                {| image := None;
                   image_properties :=
                     {| ip_width := 0; ip_height := 0; v_align := 0 |} |}
                eq_refl eq_refl) as [Hreturns _].
    destruct (Hreturns _ eq_refl) as (Hitems & Hlayout & Hdone & _).
    split; [rewrite Hitems; reflexivity|]. split; [exact Hlayout|].
    apply Hdone. intros [|j] b Hne Hb _;
      [exfalso; apply Hne; reflexivity | discriminate Hb].
  - destruct (decode_resolved_completes (H := sample_services)
                (paint (H := sample_services) 0
                   (sample_state ready (Some sample_bare_engine)))
                0 {| decode_box := 0; decode_svg := sample_bare_svg;
                     decode_url := 0 |}
                7 new_GraphicsBox (new_TextFields (JS.lit "x"))
                {| image := None;
                   image_properties :=
                     {| ip_width := 0; ip_height := 0; v_align := 0 |} |}
                eq_refl eq_refl) as [_ Hthrows].
    destruct (Hthrows eq_refl) as (Hitems & Hlayout & Hflag & Hnotified).
    split; [rewrite Hitems; reflexivity|]. split; [exact Hlayout|].
    split; [exact Hflag | exact Hnotified].
Defined.

Lemma paint_loaded_is_idle_witness :
  let s := decode_resolved (H := sample_services) 0 7
             (paint (H := sample_services) 0
                (sample_state ready (Some sample_engine))) in
  has_images_loaded s = true
  /\ paint (H := sample_services) 0 s = s
  /\ paint_container (H := sample_services) s = s.
Proof.
  cbv zeta. split; [reflexivity|].
  destruct (paint_loaded_is_idle (H := sample_services)
              (decode_resolved (H := sample_services) 0 7
                 (paint (H := sample_services) 0
                    (sample_state ready (Some sample_engine)))) eq_refl)
    as [Hpaint Hall].
  split; [apply Hpaint | exact Hall].
Defined.

Section NoLeak.
Context `{Services}.

(** X17. In a run of a view that starts with no decode in flight and no
    object URL, the object URLs that exist at any time are those of the
    decodes in flight, each made for one decode; when no decode is in flight
    none is left. *)
Theorem no_object_url_outlives_decode (s : State) (events : list Event) :
  pending s = [] -> object_urls s = ∅ ->
  (forall u, u ∈ object_urls (run s events)
             <-> u ∈ decode_url <$> pending (run s events))
  /\ NoDup (decode_url <$> pending (run s events))
  /\ (pending (run s events) = [] -> object_urls (run s events) = ∅).
Proof.
  intros Hpending Hurls.
  assert (Hstart : urls_accounted s).
  { unfold urls_accounted. rewrite Hpending, Hurls. split; [constructor|]. split.
    - intros u. split; intros Hu.
      + apply not_elem_of_empty in Hu. destruct Hu.
      + apply elem_of_nil in Hu. destruct Hu.
    - intros u Hu. apply not_elem_of_empty in Hu. destruct Hu. }
  destruct (object_urls_never_leak s events Hstart) as (Hnodup & Hsame & _).
  split; [exact Hsame|]. split; [exact Hnodup|].
  intros Hnone. apply leibniz_equiv. intros u. rewrite Hsame, Hnone. split.
  - intros Hu. apply elem_of_nil in Hu. destruct Hu.
  - intros Hu. apply not_elem_of_empty in Hu. destruct Hu.
Qed.

End NoLeak.

Lemma no_object_url_outlives_decode_witness :
  let s := run (H := sample_services) (sample_state ready (Some sample_engine))
             [Paint 0; Paint 0; DecodeRejected 0; DecodeResolved 0 7] in
  pending s = [] /\ object_urls s = ∅.
Proof.
  cbv zeta. split; [reflexivity|].
  apply (no_object_url_outlives_decode (H := sample_services)
           (sample_state ready (Some sample_engine))
           [Paint 0; Paint 0; DecodeRejected 0; DecodeResolved 0 7]
           eq_refl eq_refl).
  reflexivity.
Defined.

(** ** The styling of MathML, when the root has attributes *)

Lemma starts_with_app (l r : list Z) : JS.starts_with (l ++ r) l = true.
Proof.
  induction l as [|a l IH]; [destruct r; reflexivity|].
  cbn [app JS.starts_with]. unfold JS.unit_eqb. rewrite Z.eqb_refl. exact IH.
Qed.

Lemma trim_tag (body : list Z) (a z : Z) :
  JS.is_white_space a = false -> JS.is_white_space z = false ->
  JS.trim (a :: body ++ [z]) = a :: body ++ [z].
Proof.
  intros Ha Hz. unfold JS.trim, JS.trim_end. cbn [JS.trim_start]. rewrite Ha.
  change (a :: body ++ [z]) with ((a :: body) ++ [z]).
  rewrite rev_app_distr. change (rev [z]) with [z].
  cbn [app JS.trim_start]. rewrite Hz.
  change (z :: rev (a :: body)) with ([z] ++ rev (a :: body)).
  rewrite rev_app_distr, rev_involutive. reflexivity.
Qed.

(** The opening pattern, on a root tag with attributes: the lazy star runs to
    the last code unit before the first [>]. *)
Lemma open_group_attributes (pre : list Z) (last : Z) (tail : list Z) :
  ~ In 62%Z (pre ++ [last]) -> last <> 63%Z ->
  Regex.lazy_star Regex.any (pre ++ last :: 62%Z :: tail)
    (fun s' => Regex.m (Regex.Class (Regex.other_than 63)) s'
                 (fun s'' => Regex.m (Regex.Chars (JS.lit ">")) s'' Some))
  = Some tail.
Proof.
  intros Hno Hlast. induction pre as [|a pre IH].
  - cbn [app Regex.lazy_star Regex.m]. unfold Regex.other_than.
    destruct (Z.eqb_spec last 63); [contradiction|]. cbn [negb].
    change (JS.lit ">") with [62%Z]. cbn [JS.starts_with]. unfold JS.unit_eqb.
    rewrite Z.eqb_refl. reflexivity.
  - assert (Hnext : exists x rest, pre ++ last :: 62%Z :: tail = x :: rest
                                   /\ x <> 62%Z).
    { destruct pre as [|x pre']; cbn [app].
      - exists last, (62%Z :: tail). split; [reflexivity|].
        intros ->. apply Hno. right. left. reflexivity.
      - exists x, (pre' ++ last :: 62%Z :: tail). split; [reflexivity|].
        intros ->. apply Hno. right. left. reflexivity. }
    destruct Hnext as (x & rest & Hrest & Hx).
    cbn [app Regex.lazy_star]. 
    assert (Hfail :
      Regex.m (Regex.Class (Regex.other_than 63))
        (a :: pre ++ last :: 62%Z :: tail)
        (fun s'' => Regex.m (Regex.Chars (JS.lit ">")) s'' Some) = None).
    { cbn [Regex.m]. destruct (Regex.other_than 63 a); [|reflexivity].
      rewrite Hrest. change (JS.lit ">") with [62%Z].
      cbn [JS.starts_with]. unfold JS.unit_eqb.
      destruct (Z.eqb_spec x 62); [contradiction | reflexivity]. }
    rewrite Hfail. cbn [Regex.any]. apply IH.
    intros Hin. apply Hno. right. exact Hin.
Qed.

Lemma match_open_attributes (attrs tail : list Z) :
  attrs <> [] -> ~ In 62%Z attrs -> List.last attrs 0%Z <> 63%Z ->
  Regex.exec math_open_re (JS.lit "<math" ++ attrs ++ 62%Z :: tail)
  = Some (0%nat, JS.lit "<math" ++ attrs ++ [62%Z]).
Proof.
  intros Hne Hno Hlast.
  destruct (exists_last Hne) as (pre & last & ->).
  rewrite last_last in Hlast.
  assert (Hhere :
    Regex.m math_open_re (JS.lit "<math" ++ (pre ++ [last]) ++ 62%Z :: tail) Some
    = Some tail).
  { unfold math_open_re. cbn [Regex.m]. rewrite starts_with_app.
    rewrite drop_app_length. rewrite <- app_assoc. cbn [app].
    rewrite open_group_attributes by assumption. reflexivity. }
  assert (Hmatch :
    Regex.match_here math_open_re
      (JS.lit "<math" ++ (pre ++ [last]) ++ 62%Z :: tail)
    = Some (JS.lit "<math" ++ (pre ++ [last]) ++ [62%Z])).
  { unfold Regex.match_here. rewrite Hhere. cbn [mbind option_bind]. f_equal.
    replace (JS.lit "<math" ++ (pre ++ [last]) ++ 62%Z :: tail)
      with ((JS.lit "<math" ++ (pre ++ [last]) ++ [62%Z]) ++ tail)
      by (rewrite <- !app_assoc; reflexivity).
    rewrite length_app.
    replace (length (JS.lit "<math" ++ (pre ++ [last]) ++ [62%Z]) + length tail
             - length tail)%nat
      with (length (JS.lit "<math" ++ (pre ++ [last]) ++ [62%Z])) by lia.
    apply take_app_length. }
  destruct (JS.lit "<math" ++ (pre ++ [last]) ++ 62%Z :: tail) eqn:E;
    cbn [Regex.exec]; rewrite Hmatch; reflexivity.
Qed.

Lemma starts_with_math_run (s tail : list Z) :
  In 62%Z s ->
  JS.starts_with (s ++ tail) (JS.lit "math") = JS.starts_with s (JS.lit "math").
Proof.
  change (JS.lit "math") with [109; 97; 116; 104]%Z. intros Hin.
  destruct s as [|a [|b [|c [|e s]]]];
    cbn [app In JS.starts_with] in *; unfold JS.unit_eqb;
    try reflexivity; try (destruct Hin; fail).
  - destruct Hin as [Ha|[]]. subst a. reflexivity.
  - destruct (Z.eqb_spec a 109) as [->|]; [|reflexivity]. cbn [andb].
    destruct Hin as [Ha|[Hb|[]]]; [discriminate Ha|]. subst b.
    rewrite andb_false_r. reflexivity.
  - destruct (Z.eqb_spec a 109) as [->|]; [|reflexivity]. cbn [andb].
    destruct (Z.eqb_spec b 97) as [->|]; [|reflexivity]. cbn [andb].
    destruct Hin as [Ha|[Hb|[Hc|[]]]]; [discriminate Ha | discriminate Hb|].
    subst c. rewrite andb_false_r. reflexivity.
Qed.

Lemma run_plain_gt (s : list Z) : run_plain s = true -> In 62%Z s.
Proof.
  induction s as [|a s IH]; [discriminate|]. cbn [run_plain].
  destruct (Z.eqb_spec a 62) as [->|]; [intros _; left; reflexivity|].
  cbn [orb]. intros Hrun. apply andb_true_iff in Hrun as [_ Hrun].
  right. apply IH, Hrun.
Qed.

Lemma run_plain_app (s tail : list Z) :
  run_plain s = true -> run_plain (s ++ tail) = true.
Proof.
  induction s as [|a s IH]; [discriminate|]. intros Hrun.
  pose proof (run_plain_gt _ Hrun) as Hin.
  cbn [run_plain] in Hrun. cbn [app run_plain].
  destruct (Z.eqb a 62); [reflexivity|]. cbn [orb] in *.
  apply andb_true_iff in Hrun as [Hmath Hrun].
  change (a :: s ++ tail) with ((a :: s) ++ tail).
  rewrite starts_with_math_run by exact Hin. rewrite Hmath, IH by exact Hrun.
  reflexivity.
Qed.

Lemma tags_plain_app (s tail : list Z) :
  tags_plain s = true -> tags_plain tail = true -> tags_plain (s ++ tail) = true.
Proof.
  intros Hs Htail. induction s as [|a s IH]; [exact Htail|].
  cbn [tags_plain] in Hs. apply andb_true_iff in Hs as [Hhead Hs].
  cbn [app tags_plain]. rewrite (IH Hs), andb_true_r.
  destruct (Z.eqb a 60); [|reflexivity].
  destruct s as [|b s]; [discriminate Hhead|]. cbn [app].
  destruct (Z.eqb b 47); [|reflexivity]. apply run_plain_app, Hhead.
Qed.

(** The closing pattern finds nothing that begins in a stretch of plain
    tags. *)
Lemma close_fails_in_run (s tail : list Z) :
  run_plain s = true ->
  Regex.lazy_star (Regex.other_than 62) (s ++ tail)
    (fun s' => Regex.m (Regex.Seq (Regex.Chars (JS.lit "math"))
                          (Regex.Seq (Regex.LazyStar Regex.any)
                             (Regex.Chars (JS.lit ">")))) s' Some)
  = None.
Proof.
  induction s as [|a s IH]; [discriminate|]. intros Hrun.
  pose proof (run_plain_gt _ Hrun) as Hin.
  cbn [run_plain] in Hrun. cbn [app Regex.lazy_star].
  assert (Hk :
    Regex.m (Regex.Seq (Regex.Chars (JS.lit "math"))
               (Regex.Seq (Regex.LazyStar Regex.any) (Regex.Chars (JS.lit ">"))))
      (a :: s ++ tail) Some = None).
  { cbn [Regex.m]. change (a :: s ++ tail) with ((a :: s) ++ tail).
    rewrite starts_with_math_run by exact Hin.
    destruct (Z.eqb_spec a 62) as [->|Hne].
    - reflexivity.
    - cbn [orb] in Hrun. apply andb_true_iff in Hrun as [Hmath _].
      apply negb_true_iff in Hmath. rewrite Hmath. reflexivity. }
  rewrite Hk. unfold Regex.other_than at 1.
  destruct (Z.eqb_spec a 62) as [->|Hne]; [reflexivity|]. cbn [negb orb] in *.
  apply andb_true_iff in Hrun as [_ Hrun]. apply IH, Hrun.
Qed.

Lemma m_Seq (r1 r2 : Regex.re) (s : list Z) (k : list Z -> option (list Z)) :
  Regex.m (Regex.Seq r1 r2) s k = Regex.m r1 s (fun s' => Regex.m r2 s' k).
Proof. reflexivity. Qed.

Lemma m_Chars (l s : list Z) (k : list Z -> option (list Z)) :
  Regex.m (Regex.Chars l) s k
  = if JS.starts_with s l then k (drop (length l) s) else None.
Proof. reflexivity. Qed.

Lemma m_LazyStar (c : Z -> bool) (s : list Z) (k : list Z -> option (list Z)) :
  Regex.m (Regex.LazyStar c) s k = Regex.lazy_star c s k.
Proof. reflexivity. Qed.

Lemma starts_with_close_tag (s : list Z) :
  JS.starts_with s (JS.lit "</math>")
  = JS.starts_with s (JS.lit "</")
    && JS.starts_with (drop 2 s) (JS.lit "math>").
Proof.
  change (JS.lit "</math>") with ([60; 47]%Z ++ JS.lit "math>").
  change (JS.lit "</") with [60; 47]%Z.
  destruct s as [|a [|b s]]; cbn [app JS.starts_with drop].
  - reflexivity.
  - rewrite andb_false_r. reflexivity.
  - rewrite andb_true_r, andb_assoc. reflexivity.
Qed.

Lemma starts_with_math_gt (s : list Z) :
  JS.starts_with s (JS.lit "math") = false ->
  JS.starts_with s (JS.lit "math>") = false.
Proof.
  change (JS.lit "math>") with [109; 97; 116; 104; 62]%Z.
  change (JS.lit "math") with [109; 97; 116; 104]%Z.
  destruct s as [|a [|b [|c [|e s]]]]; cbn [JS.starts_with];
    rewrite ?andb_false_r; try reflexivity.
  rewrite andb_true_r. intros Hmath.
  destruct (JS.unit_eqb a 109); [|reflexivity].
  destruct (JS.unit_eqb b 97); [|reflexivity].
  destruct (JS.unit_eqb c 116); [|reflexivity].
  destruct (JS.unit_eqb e 104); [discriminate Hmath | reflexivity].
Qed.

Lemma run_plain_no_math (s tail : list Z) :
  run_plain s = true -> JS.starts_with (s ++ tail) (JS.lit "math") = false.
Proof.
  intros Hrun. rewrite starts_with_math_run by (apply run_plain_gt, Hrun).
  destruct s as [|a s]; [discriminate Hrun|]. cbn [run_plain] in Hrun.
  destruct (Z.eqb_spec a 62) as [->|]; [reflexivity|]. cbn [orb] in Hrun.
  apply andb_true_iff in Hrun as [Hmath _]. apply negb_true_iff, Hmath.
Qed.

Lemma close_fails_at (a : Z) (s tail : list Z) :
  tags_plain (a :: s) = true ->
  Regex.match_here math_close_re (a :: s ++ tail) = None
  /\ JS.starts_with (a :: s ++ tail) (JS.lit "</math>") = false.
Proof.
  cbn [tags_plain]. intros Hplain. apply andb_true_iff in Hplain as [Hhead _].
  unfold Regex.match_here, math_close_re.
  rewrite m_Seq, m_Chars, starts_with_close_tag.
  change (JS.lit "</") with [60; 47]%Z. cbn [JS.starts_with]. unfold JS.unit_eqb.
  destruct (Z.eqb a 60); [|split; reflexivity]. cbn [andb].
  destruct s as [|b s]; [discriminate Hhead|]. cbn [app].
  destruct (Z.eqb b 47); [|split; reflexivity]. cbn [andb length drop].
  split.
  - rewrite m_Seq, m_LazyStar, drop_0.
    rewrite close_fails_in_run by exact Hhead. reflexivity.
  - apply starts_with_math_gt, run_plain_no_math, Hhead.
Qed.

Lemma close_after_plain (s tail : list Z) :
  tags_plain s = true ->
  Regex.exec math_close_re (s ++ tail)
  = prod_map (Nat.add (length s)) id <$> Regex.exec math_close_re tail
  /\ JS.find (s ++ tail) (JS.lit "</math>")
     = Nat.add (length s) <$> JS.find tail (JS.lit "</math>").
Proof.
  induction s as [|a s IH]; intros Hplain.
  - cbn [app length]. split.
    + destruct (Regex.exec math_close_re tail) as [[i matched]|]; reflexivity.
    + destruct (JS.find tail (JS.lit "</math>")); reflexivity.
  - destruct (close_fails_at a s tail Hplain) as [Hhere Hstart].
    cbn [tags_plain] in Hplain. apply andb_true_iff in Hplain as [_ Hplain].
    destruct (IH Hplain) as [IHexec IHfind].
    cbn [app Regex.exec JS.find length]. rewrite Hhere, Hstart, IHexec, IHfind.
    split.
    + destruct (Regex.exec math_close_re tail) as [[i matched]|]; reflexivity.
    + destruct (JS.find tail (JS.lit "</math>")); reflexivity.
Qed.

Lemma insert_text_at (before after inserted : list Z) :
  insert_text_on_position (before ++ after) (Z.of_nat (length before)) inserted
  = before ++ inserted ++ after.
Proof.
  unfold insert_text_on_position, JS.slice_from.
  rewrite slice_inside by (rewrite ?length_app; lia).
  rewrite slice_index_inside by (rewrite length_app; lia).
  rewrite Nat2Z.id. change (Z.to_nat 0) with 0%nat.
  rewrite drop_0, Nat.sub_0_r, take_app_length, drop_app_length. reflexivity.
Qed.

Lemma find_at_start (s rest : list Z) : JS.find (s ++ rest) s = Some 0%nat.
Proof.
  pose proof (starts_with_app s rest) as Hstart.
  destruct (s ++ rest); cbn [JS.find]; rewrite Hstart; reflexivity.
Qed.

Section Attributes.
Context `{Services}.

(** X18. For a root tag with attributes the styling is as it is meant: when the
    attributes hold no [>] and do not end on [?], and the closing tags that
    begin in the attributes, in the colour and in the body are complete and
    have no [math] in their names, the wrapper opens right after the root tag
    and closes right before [</math>]. *)
Theorem MathML_styled_text_attributes (attrs body color : list Z) :
  attrs <> [] -> ~ In 62%Z attrs -> List.last attrs 0%Z <> 63%Z ->
  tags_plain attrs = true -> tags_plain (color2hexrgb color) = true ->
  tags_plain body = true ->
  MathML_styled_text
    (JS.lit "<math" ++ attrs ++ JS.lit ">" ++ body ++ JS.lit "</math>") color
  = JS.lit "<math" ++ attrs ++ JS.lit ">" ++ mstyle_open (color2hexrgb color)
      ++ body ++ JS.lit "</mstyle>" ++ JS.lit "</math>".
Proof.
  intros Hne Hgt Hlast Hattrs Hhex Hbody.
  pose (root := JS.lit "<math" ++ attrs ++ [62%Z]).
  pose (tail := body ++ JS.lit "</math>").
  assert (Htext : JS.lit "<math" ++ attrs ++ JS.lit ">" ++ body ++ JS.lit "</math>"
                  = root ++ tail).
  { unfold root, tail. change (JS.lit ">") with [62%Z].
    rewrite <- !app_assoc. reflexivity. }
  assert (Htrim : JS.trim (root ++ tail) = root ++ tail).
  { assert (Hshape : root ++ tail
              = 60%Z :: ([109; 97; 116; 104]%Z ++ attrs ++ [62%Z] ++ body
                           ++ [60; 47; 109; 97; 116; 104]%Z) ++ [62%Z]).
    { unfold root, tail.
      change (JS.lit "<math") with (60%Z :: [109; 97; 116; 104]%Z).
      change (JS.lit "</math>") with ([60; 47; 109; 97; 116; 104]%Z ++ [62%Z]).
      cbn [app]. rewrite <- !app_assoc. cbn [app]. rewrite <- !app_assoc.
      reflexivity. }
    rewrite Hshape. apply trim_tag; reflexivity. }
  assert (Hopen : Regex.String_match (root ++ tail) math_open_re = Some root).
  { unfold Regex.String_match, root. rewrite <- !app_assoc. cbn [app].
    rewrite match_open_attributes by assumption. reflexivity. }
  assert (Hplain : tags_plain (root ++ mstyle_open (color2hexrgb color) ++ body)
                   = true).
  { unfold root, mstyle_open, quote.
    repeat (apply tags_plain_app; [try reflexivity; try assumption|]);
      try reflexivity; try assumption. }
  destruct (close_after_plain
              (root ++ mstyle_open (color2hexrgb color) ++ body)
              (JS.lit "</math>") Hplain) as [Hexec Hfind].
  assert (Hindex : JS.indexOf (root ++ tail) root = 0%Z).
  { unfold JS.indexOf. rewrite find_at_start. reflexivity. }
  unfold MathML_styled_text. rewrite Htext, Htrim, Hopen, Hindex.
  change (0 + Z.of_nat (length root))%Z with (Z.of_nat (length root)).
  fold (mstyle_open (color2hexrgb color)).
  rewrite insert_text_at.
  assert (Hstyled : root ++ mstyle_open (color2hexrgb color) ++ tail
            = (root ++ mstyle_open (color2hexrgb color) ++ body)
                ++ JS.lit "</math>").
  { unfold tail. rewrite <- !app_assoc. reflexivity. }
  rewrite Hstyled. unfold Regex.String_match. rewrite Hexec.
  change (Regex.exec math_close_re (JS.lit "</math>"))
    with (Some (0%nat, JS.lit "</math>")).
  cbn [fmap option_fmap option_map prod_map snd id].
  unfold JS.indexOf. rewrite Hfind.
  change (JS.find (JS.lit "</math>") (JS.lit "</math>")) with (Some 0%nat).
  cbn [fmap option_fmap option_map]. rewrite Nat.add_0_r, insert_text_at.
  unfold root. change (JS.lit ">") with [62%Z]. rewrite <- !app_assoc.
  reflexivity.
Qed.

End Attributes.

Lemma MathML_styled_text_attributes_witness :
  MathML_styled_text (H := sample_services)
    (JS.lit "<math display='block'>" ++ JS.lit "<mi>x</mi>" ++ JS.lit "</math>")
    (JS.lit "#ff0000")
  = JS.lit "<math display='block'>" ++ mstyle_open (JS.lit "#ff0000")
      ++ JS.lit "<mi>x</mi>" ++ JS.lit "</mstyle>" ++ JS.lit "</math>".
Proof.
  exact (MathML_styled_text_attributes (H := sample_services)
           (JS.lit " display='block'") (JS.lit "<mi>x</mi>") (JS.lit "#ff0000")
           ltac:(discriminate)
           ltac:(vm_compute; intuition discriminate)
           ltac:(vm_compute; discriminate)
           eq_refl eq_refl eq_refl).
Defined.

(** ** Painting *)

Lemma nesting_app (calls calls' : list Call) (d : nat) :
  nesting (calls ++ calls') d = nesting calls d ≫= nesting calls'.
Proof.
  revert d. induction calls as [|c calls IH]; intros d; [reflexivity|].
  destruct c; cbn [app nesting]; try apply IH.
  destruct d; [reflexivity | apply IH].
Qed.

Section PaintingProps.
Context `{Services}.
Local Open Scope Q_scope.

Lemma TextBox_paint_eq (g : BoxFields) (t : TextFields) :
  TextBox_paint g t
  = [ Save; SetFillStyle (color t); SetFont (font t);
      SetTextAlign (JS.lit "left"); SetTextBaseline (JS.lit "alphabetic") ]
      ++ turn_about g
      ++ match alignment g t with
         | None =>
             fill_justified (font t) (JS.split (text t) newline)
               (width (painted_size g t))
               (fst (painted_corner g t)) (snd (painted_corner g t))
               (line_step g t)
         | Some a =>
             fill_aligned (color t) a
               (combine (JS.split (text t) newline)
                  (map (fun line => text_width line (font t))
                     (JS.split (text t) newline)))
               (width (painted_size g t))
               (fst (painted_corner g t)) (snd (painted_corner g t))
               (snd (fst (_text_line g t (font_metrics (font t)))))
               (line_step g t)
         end
      ++ [Restore].
Proof.
  unfold TextBox_paint, painted_corner, painted_size, line_step, alignment.
  destruct (_text_line g t (font_metrics (font t))) as [[h a] d] eqn:E.
  cbn [fst snd].
  destruct (TextBox_computed_position _ _ _ _ _) as [x y].
  cbn [fst snd width]. destruct (align g); reflexivity.
Qed.

Lemma nesting_turn_about (g : BoxFields) (d : nat) :
  nesting (turn_about g) d = Some d.
Proof. unfold turn_about. destruct (falsy_angle _); reflexivity. Qed.

Lemma nesting_fill_words (words : list (list Z)) (widths : list Q)
    (s x y : Q) (d : nat) :
  nesting (fill_words words widths s x y) d = Some d.
Proof.
  revert widths x. induction words as [|w words IH]; intros [|ww widths] x;
    try reflexivity. cbn [fill_words nesting]. apply IH.
Qed.

Lemma nesting_fill_justified (font' : list Z) (lines : list (list Z))
    (w x y step' : Q) (d : nat) :
  nesting (fill_justified font' lines w x y step') d = Some d.
Proof.
  revert y. induction lines as [|line lines IH]; intros y; [reflexivity|].
  cbn [fill_justified]. rewrite nesting_app, nesting_fill_words. apply IH.
Qed.

Lemma nesting_fill_aligned (c : list Z) (a : HAlign)
    (lines : list (list Z * Q)) (w x y asc step' : Q) (d : nat) :
  nesting (fill_aligned c a lines w x y asc step') d = Some d.
Proof.
  revert y. induction lines as [|[line lw] lines IH]; intros y; [reflexivity|].
  cbn [fill_aligned nesting]. apply IH.
Qed.

(** X19. Painting leaves the drawing context as it found it: in the calls of
    any box, with what is in it, every [save] has its [restore] after it and
    no state is restored that the box has not saved. *)
Theorem paint_calls_balanced (b : GraphicsBox) (d : nat) :
  nesting (paint_calls b) d = Some d.
Proof.
  revert d.
  induction b as [g t|g t i|g base expo IHbase IHexpo|g items IHitems]
    using GraphicsBox_nested_ind; intros d; cbn [paint_calls].
  - rewrite TextBox_paint_eq. cbn [app nesting].
    rewrite nesting_app, nesting_turn_about. cbn [mbind option_bind].
    rewrite nesting_app.
    destruct (alignment g t);
      [rewrite nesting_fill_aligned | rewrite nesting_fill_justified];
      reflexivity.
  - unfold ImageTextBox_paint. destruct (image i); [|reflexivity].
    destruct (ImageTextBox_computed_position _ _ _ _) as [x y].
    cbn [app nesting]. rewrite nesting_app, nesting_turn_about. reflexivity.
  - destruct (_computed_position _ _) as [x y]. cbn [app nesting].
    rewrite nesting_app, nesting_turn_about. cbn [mbind option_bind nesting].
    rewrite nesting_app, IHbase. cbn [mbind option_bind].
    rewrite nesting_app, IHexpo. reflexivity.
  - induction IHitems as [|item items Hitem _ IH]; [reflexivity|].
    cbn [flat_map]. rewrite nesting_app, Hitem. exact IH.
Qed.

End PaintingProps.

Lemma fills_app (calls calls' : list Call) :
  fills (calls ++ calls') = fills calls ++ fills calls'.
Proof. unfold fills. apply flat_map_app. Qed.

Lemma split_one_line (s : list Z) (sep : Z) :
  ~ In sep s -> JS.split s sep = [s].
Proof.
  induction s as [|a s IH]; intros Hno; [reflexivity|].
  cbn [JS.split]. unfold JS.unit_eqb.
  destruct (Z.eqb_spec a sep) as [->|_]; [exfalso; apply Hno; left; reflexivity|].
  rewrite IH by (intros Hin; apply Hno; right; exact Hin). reflexivity.
Qed.

Section PaintedLines.
Context `{Services}.
Local Open Scope Q_scope.

Lemma fills_turn_about (g : BoxFields) : fills (turn_about g) = [].
Proof. unfold turn_about. destruct (falsy_angle _); reflexivity. Qed.

Lemma line_y_next (y step' : Q) (k : nat) :
  line_y y step' (S k) = line_y (y + step') step' k.
Proof. unfold line_y. rewrite Nat.iter_succ_r. reflexivity. Qed.

Lemma fills_fill_aligned (c : list Z) (a : HAlign) (w x asc step' : Q)
    (f : list Z -> Q) (lines : list (list Z)) :
  forall y,
    fills (fill_aligned c a (combine lines (map f lines)) w x y asc step')
    = imap (fun k line => (line, x + align_shift a w (f line),
                           line_y y step' k + asc)) lines.
Proof.
  induction lines as [|line lines IH]; intros y; [reflexivity|].
  cbn [map combine fill_aligned fills flat_map app imap].
  fold (fills (fill_aligned c a (combine lines (map f lines)) w x (y + step')
                 asc step')).
  rewrite IH. f_equal. apply imap_ext. intros k line' _. cbn [compose].
  rewrite line_y_next. reflexivity.
Qed.

Lemma fills_fill_words (f : list Z -> Q) (s y : Q) (words : list (list Z)) :
  forall x,
    fills (fill_words words (map f words) s x y)
    = imap (fun j word => (word, word_x x s (map f words) j, y)) words.
Proof.
  induction words as [|word words IH]; intros x; [reflexivity|].
  cbn [map fill_words fills flat_map app imap].
  fold (fills (fill_words words (map f words) s (x + (f word + s)) y)).
  rewrite IH. f_equal.
Qed.

Lemma fills_fill_justified (font' : list Z) (w x step' : Q)
    (lines : list (list Z)) :
  forall y,
    fills (fill_justified font' lines w x y step')
    = concat
        (imap (fun k line =>
                 imap (fun j word =>
                         (word,
                          word_x x (word_spacing_of font' w line)
                            (map (fun word => text_width word font')
                               (JS.split line space)) j,
                          line_y y step' k))
                   (JS.split line space))
           lines).
Proof.
  induction lines as [|line lines IH]; intros y; [reflexivity|].
  cbn [fill_justified imap concat]. rewrite fills_app, fills_fill_words, IH.
  f_equal. f_equal. apply imap_ext. intros k line' _. cbn [compose].
  apply imap_ext. intros j word _. rewrite line_y_next. reflexivity.
Qed.

Lemma text_line_ascent_baseline (g : BoxFields) (t : TextFields)
    (metrics : FontMetrics) :
  snd (fst (_text_line g t metrics)) = baseline_offset g t metrics.
Proof. reflexivity. Qed.

Lemma fills_TextBox_paint_lines (g : BoxFields) (t : TextFields) (a : HAlign) :
  alignment g t = Some a ->
  fills (TextBox_paint g t)
  = imap (fun k line =>
            (line,
             fst (painted_corner g t)
             + align_shift a (width (painted_size g t))
                 (text_width line (font t)),
             line_y (snd (painted_corner g t)) (line_step g t) k
             + baseline_offset g t (font_metrics (font t))))
      (JS.split (text t) newline).
Proof.
  intros Ha. rewrite TextBox_paint_eq, Ha.
  rewrite !fills_app, fills_turn_about. cbn [fills flat_map app].
  rewrite app_nil_r.
  match goal with |- context [fill_aligned ?c a _ ?w ?x ?y ?asc ?st] =>
    change (flat_map _ (fill_aligned c a ?ls w x y asc st))
      with (fills (fill_aligned c a ls w x y asc st)) end.
  rewrite fills_fill_aligned, text_line_ascent_baseline. reflexivity.
Qed.

(** X20. A text box that does not justify its text fills one text for each
    of its lines, in order, and nothing else. The line [k] starts at the [x]
    of the corner that the anchors of the box resolve to, moved by nothing
    when the lines are aligned left, by what the line is narrower than the
    box when they are aligned right, and by half of that when they are
    centred. Its baseline is at the [y] of the corner, stepped down [k]
    times by the height of a line with its spacing, plus the ascent of a
    line. The numbers are those of the code, operation by operation. *)
Theorem TextBox_paint_aligned (g : BoxFields) (t : TextFields) (a : HAlign) :
  alignment g t = Some a ->
  fills (TextBox_paint g t)
  = imap (fun k line =>
            (line,
             fst (painted_corner g t)
             + match a with
               | Left => 0
               | Center =>
                   (1 # 2) * (width (painted_size g t) - text_width line (font t))
               | Right => width (painted_size g t) - text_width line (font t)
               end,
             line_y (snd (painted_corner g t)) (line_step g t) k
             + baseline_offset g t (font_metrics (font t))))
      (JS.split (text t) newline).
Proof.
  intros Ha. rewrite (fills_TextBox_paint_lines g t a Ha).
  apply imap_ext. intros k line _. destruct a; reflexivity.
Qed.

(** X21. What [_computed_position] takes off the [sy] of a box anchored by
    its baseline is what [paint] adds again as the ascent of the line: a
    text of one line in such a box, not justified, is filled once, at the
    [sy] of the position of the box less the height of the metric of the
    box and plus that same height, in this order. *)
Theorem TextBox_paint_on_baseline (g : BoxFields) (t : TextFields) (a : HAlign) :
  ~ In newline (text t) ->
  default (YNamed (_y_anchor g)) (y_anchor (_position g)) = YNamed Baseline ->
  alignment g t = Some a ->
  exists cx,
    fills (TextBox_paint g t)
    = [(text t, cx,
        sy (_position g) - baseline_offset g t (font_metrics (font t))
        + baseline_offset g t (font_metrics (font t)))].
Proof.
  intros Hone Hanchor Ha.
  rewrite (fills_TextBox_paint_lines g t a Ha), (split_one_line _ _ Hone).
  cbn [imap line_y Nat.iter]. eexists. f_equal. f_equal.
  unfold painted_corner, TextBox_computed_position.
  rewrite Hanchor, (split_one_line _ _ Hone). reflexivity.
Qed.

(** X22. A text box that justifies its text fills the words of its lines
    one by one, in order, and nothing else. The first word of a line is at
    the [x] of the corner that the anchors of the box resolve to, and each
    further word is where the one before it is, plus the width of that one
    and the spacing of the line: the width of the box less the widths of the
    words, over the number of gaps. The spacing of a line of one word, a
    division by zero, places no word. The words of the line [k] are at the
    [y] of the corner, stepped down [k] times by the height of a line with
    its spacing, without the ascent that the other alignments add. *)
Theorem TextBox_paint_justified (g : BoxFields) (t : TextFields) :
  alignment g t = None ->
  fills (TextBox_paint g t)
  = concat
      (imap (fun k line =>
               imap (fun j word =>
                       (word,
                        word_x (fst (painted_corner g t))
                          (word_spacing_of (font t) (width (painted_size g t))
                             line)
                          (map (fun word => text_width word (font t))
                             (JS.split line space)) j,
                        line_y (snd (painted_corner g t)) (line_step g t) k))
                 (JS.split line space))
         (JS.split (text t) newline))
  /\ forall k line,
       JS.split (text t) newline !! k = Some line ->
       exists words,
         JS.split line space = List.hd [] (JS.split line space) :: words
         /\ In (List.hd [] (JS.split line space), fst (painted_corner g t),
                line_y (snd (painted_corner g t)) (line_step g t) k)
              (fills (TextBox_paint g t)).
Proof.
  intros Ha.
  assert (Hfills : fills (TextBox_paint g t)
            = concat
                (imap (fun k line =>
                         imap (fun j word =>
                                 (word,
                                  word_x (fst (painted_corner g t))
                                    (word_spacing_of (font t)
                                       (width (painted_size g t)) line)
                                    (map (fun word => text_width word (font t))
                                       (JS.split line space)) j,
                                  line_y (snd (painted_corner g t))
                                    (line_step g t) k))
                           (JS.split line space))
                   (JS.split (text t) newline))).
  { rewrite TextBox_paint_eq, Ha.
    rewrite !fills_app, fills_turn_about. cbn [fills flat_map app].
    rewrite app_nil_r.
    match goal with |- context [fill_justified ?f ?ls ?w ?x ?y ?st] =>
      change (flat_map _ (fill_justified f ls w x y st))
        with (fills (fill_justified f ls w x y st)) end.
    apply fills_fill_justified. }
  split; [exact Hfills|]. intros k line Hk.
  assert (Hsplit : exists word words, JS.split line space = word :: words).
  { destruct line as [|c line]; cbn [JS.split]; [eexists _, _; reflexivity|].
    destruct (JS.unit_eqb c space); [eexists _, _; reflexivity|].
    destruct (JS.split line space); eexists _, _; reflexivity. }
  destruct Hsplit as (word & words & Hsplit). exists words.
  rewrite Hsplit. cbn [List.hd]. split; [reflexivity|].
  rewrite Hfills. apply in_concat.
  eexists. split.
  - apply list_elem_of_In, list_elem_of_lookup. exists k.
    rewrite list_lookup_imap, Hk. reflexivity.
  - cbn beta. rewrite Hsplit. cbn [imap]. left. reflexivity.
Qed.

End PaintedLines.

Lemma TextBox_paint_aligned_witness :
  alignment (sample_aligned (AlignTo Right) VCenter) sample_lines = Some Right
  /\ exists cx cy cx' cy',
       fills (TextBox_paint (H := sample_services)
                (sample_aligned (AlignTo Right) VCenter) sample_lines)
       = [(JS.lit "ab", cx, cy); (JS.lit "c d", cx', cy')]
       /\ (cx == 11 /\ cx' == 10 /\ cy' - cy == 10)%Q.
Proof.
  split; [reflexivity|].
  rewrite (TextBox_paint_aligned (H := sample_services)
             (sample_aligned (AlignTo Right) VCenter) sample_lines Right eq_refl).
  eexists _, _, _, _. split; [reflexivity|].
  repeat split; vm_compute; reflexivity.
Defined.

Lemma TextBox_paint_on_baseline_witness :
  ~ In newline (JS.lit "ab")
  /\ exists cx,
       fills (TextBox_paint (H := sample_services)
                (sample_aligned AlignAuto Baseline)
                {| text := JS.lit "ab"; color := JS.lit "black";
                   font := JS.lit "serif"; line_height := 1;
                   _visual_align := Left |})
       = [(JS.lit "ab", cx, (20 - 8 + 8)%Q)].
Proof.
  assert (Hline : ~ In newline (JS.lit "ab")).
  { intros [Hin | [Hin | []]]; discriminate Hin. }
  split; [exact Hline|].
  exact (TextBox_paint_on_baseline (H := sample_services)
           (sample_aligned AlignAuto Baseline)
           {| text := JS.lit "ab"; color := JS.lit "black";
              font := JS.lit "serif"; line_height := 1;
              _visual_align := Left |}
           Left Hline eq_refl eq_refl).
Defined.

Lemma TextBox_paint_justified_witness :
  alignment (sample_aligned AlignJustify VCenter) sample_lines = None
  /\ exists cy cx' cy',
       fills (TextBox_paint (H := sample_services)
                (sample_aligned AlignJustify VCenter) sample_lines)
       = [(JS.lit "ab", 10%Q, cy); (JS.lit "c", 10%Q, cy'); (JS.lit "d", cx', cy')]
       /\ (cx' + 1 == 10 + 3 /\ cy' - cy == 10)%Q.
Proof.
  split; [reflexivity|].
  rewrite (proj1 (TextBox_paint_justified (H := sample_services)
                    (sample_aligned AlignJustify VCenter) sample_lines eq_refl)).
  eexists _, _, _. split; [reflexivity|].
  split; vm_compute; reflexivity.
Defined.
